(** * ai-phone-agent: the slot extractor and the dialogue turn handler of
      [src/app.js], embedded in Rocq.

    Conventions of the embedding.

    - A JavaScript string is a [string]; a character is one code unit in the
      range U+0000..U+00FF (ASCII and Latin-1), which is the range the
      vocabulary and the name patterns of [extractInformation] live in.
    - The two TEXT columns [conversation_state] and [collected_data] hold
      JSON; they are modelled by the value the JSON text denotes
      ([JSON.parse (JSON.stringify v) = v] for the arrays of messages and the
      info objects the program writes).
    - Promises, [await] and [try]/[catch] are a state-and-exception monad
      over the world the handlers act on (database, console, outgoing SMS).
    - The external collaborators (OpenAI, Twilio messaging, the SQLite
      handle's error outcome) are taken as an explicit environment. *)

From stdpp Require Import base option list strings gmap.
From Stdlib Require Import Ascii Arith Lia.

(** ** Characters and strings *)

Module Char.

Definition code (c : ascii) : nat := nat_of_ascii c.

(** [A-Z] *)
Definition is_upper (c : ascii) : bool :=
  (65 <=? code c) && (code c <=? 90).

(** [a-z] *)
Definition is_lower (c : ascii) : bool :=
  (97 <=? code c) && (code c <=? 122).

(** [0-9] *)
Definition is_digit (c : ascii) : bool :=
  (48 <=? code c) && (code c <=? 57).

(** Latin-1 capitals U+00C0..U+00DE without the multiplication sign
    U+00D7: the other characters below U+0100 that have a lower-case
    form. *)
Definition is_upper_latin1 (c : ascii) : bool :=
  (192 <=? code c) && (code c <=? 222) && negb (code c =? 215).

(** [String.prototype.toLowerCase] on one code unit. *)
Definition toLowerCase (c : ascii) : ascii :=
  if is_upper c || is_upper_latin1 c then ascii_of_nat (code c + 32) else c.

(** The canonicalisation a regular expression with flag [i] (and without
    flag [u]) applies to both the pattern character and the input
    character.  A letter of [a-z] is mapped to its capital; no character
    outside ASCII is mapped into ASCII, so for the ASCII pattern characters
    used here only the two cases of the same letter are identified. *)
Definition canonicalize (c : ascii) : ascii :=
  if is_lower c then ascii_of_nat (code c - 32) else c.

Definition eqb_ci (a b : ascii) : bool :=
  Ascii.eqb (canonicalize a) (canonicalize b).

(** The class [\w]: [A-Za-z0-9_]. *)
Definition is_word (c : ascii) : bool :=
  is_upper c || is_lower c || is_digit c || (code c =? 95).

End Char.

(** [String.prototype.toLowerCase]. *)
Fixpoint toLowerCase (s : string) : string :=
  match s with
  | EmptyString => EmptyString
  | String c s' => String (Char.toLowerCase c) (toLowerCase s')
  end.

(** [s.startsWith(p)], the test [includes] makes at each position. *)
Fixpoint startsWith (p s : string) : bool :=
  match p, s with
  | EmptyString, _ => true
  | String _ _, EmptyString => false
  | String a p', String b s' => Ascii.eqb a b && startsWith p' s'
  end.

(** [s.includes(p)]: [p] occurs in [s] at some position. *)
Fixpoint includes (s p : string) : bool :=
  startsWith p s ||
  match s with
  | EmptyString => false
  | String _ s' => includes s' p
  end.

(** What "the text contains the phrase" means, independently of the
    search above. *)
Definition contains (s p : string) : Prop :=
  exists pre post : string, s = pre +:+ p +:+ post.

(** ** Regular expressions of the shape [/cue(\w+)/i]

    The three name patterns are a literal cue followed by one capture group
    [(\w+)], with flag [i].  [String.prototype.match] with such a non-global
    pattern returns the leftmost match; the capture is greedy. *)

(** Match the literal [cue] at the start of [s], ignoring case; return the
    rest of [s]. *)
Fixpoint match_literal (cue s : string) : option string :=
  match cue, s with
  | EmptyString, _ => Some s
  | String _ _, EmptyString => None
  | String a cue', String b s' =>
      if Char.eqb_ci a b then match_literal cue' s' else None
  end.

(** [\w*] at the start of [s]: the longest prefix of word characters. *)
Fixpoint take_word (s : string) : string :=
  match s with
  | EmptyString => EmptyString
  | String c s' => if Char.is_word c then String c (take_word s') else EmptyString
  end.

(** One attempt of [/cue(\w+)/i] at the start of [s]: the capture if it
    matches there. *)
Definition match_at (cue s : string) : option string :=
  match match_literal cue s with
  | Some rest =>
      match take_word rest with
      | EmptyString => None
      | w => Some w
      end
  | None => None
  end.

(** [s.match(/cue(\w+)/i)] reduced to [match[1]]: attempts at positions
    0, 1, 2, ... until one succeeds. *)
Fixpoint regex_match (cue s : string) : option string :=
  match match_at cue s with
  | Some w => Some w
  | None =>
      match s with
      | EmptyString => None
      | String _ s' => regex_match cue s'
      end
  end.

(** The attempts of [/cue(\w+)/i] on [pre ++ s] that start inside [pre]
    all fail: a match, if any, starts in [s]. *)
Fixpoint no_match_within (cue pre s : string) : bool :=
  match pre with
  | EmptyString => true
  | String c pre' =>
      match match_at cue (String c pre' +:+ s) with
      | Some _ => false
      | None => no_match_within cue pre' s
      end
  end.

(** ** [CallAssistant.extractInformation] *)

(** The object [info]: a property that was never assigned is [None]. *)
Record Info : Type := mkInfo {
  name : option string;
  favoriteColor : option string;
  steakPreference : option string
}.

Definition empty_info : Info := mkInfo None None None.

(** [/my name is (\w+)/i], [/i'm (\w+)/i], [/this is (\w+)/i], each given
    by its cue. *)
Definition namePatterns : list string :=
  ["my name is "; "i'm "; "this is "].

Definition colors : list string :=
  ["red"; "blue"; "green"; "yellow"; "purple"; "orange"; "pink"; "black";
   "white"; "brown"].

Definition steakPrefs : list string :=
  ["rare"; "medium rare"; "medium well"; "medium"; "well done"].

(** [for (const pattern of namePatterns) { const match = ...; if (match)
    { info.name = match[1]; break; } }] *)
Fixpoint first_match (patterns : list string) (conversation : string)
  : option string :=
  match patterns with
  | [] => None
  | cue :: rest =>
      match regex_match cue conversation with
      | Some w => Some w
      | None => first_match rest conversation
      end
  end.

(** [for (const w of vocabulary) { if (text.includes(w)) { ...= w; break; } }] *)
Fixpoint first_included (vocabulary : list string) (text : string)
  : option string :=
  match vocabulary with
  | [] => None
  | w :: rest =>
      if includes text w then Some w else first_included rest text
  end.

Definition extractInformation (conversation : string) : Info :=
  let text := toLowerCase conversation in
  {| name := first_match namePatterns conversation;
     favoriteColor := first_included colors text;
     steakPreference := first_included steakPrefs text |}.

(** ** Data the handlers work on *)

Inductive Role : Type := system | user | assistant.

(** One entry of the conversation: [{ role, content }]. *)
Record Message : Type := mkMessage { role : Role; content : string }.

(** What a rejected promise or a [throw] carries. *)
Inductive Exn : Type :=
| TypeError                     (* property read on [undefined] *)
| Error (message : string).     (* an error of a collaborator *)

(** Table [call_sessions].  [conversation_state] is [None] for NULL or the
    empty text (the falsy values), otherwise the array its JSON denotes;
    [collected_data] is the info object its JSON denotes.  [created_at] is
    never read and is left out. *)
Module CallSessions.
Record row : Type := mkRow {
  id : nat;
  call_sid : string;
  phone_number : string;
  conversation_state : option (list Message);
  collected_data : Info
}.
End CallSessions.

(** Table [customers], keyed by its UNIQUE column [phone_number]. *)
Module Customers.
Record row : Type := mkRow {
  id : nat;
  name : option string;
  favorite_color : option string;
  steak_preference : option string
}.
End Customers.

(** The database file: both tables and their AUTOINCREMENT counters. *)
Record Db : Type := mkDb {
  call_sessions : list CallSessions.row;
  call_sessions_seq : nat;
  customers : gmap string Customers.row;
  customers_seq : nat
}.

(** [steakTemperatures]. *)
Record TempInfo : Type := mkTempInfo { temp : string; time : string }.

(** The degree sign as the source file spells it: U+00C2 U+00B0. *)
Definition deg : string := String "194"%char (String "176"%char "F").

Definition steakTemperatures : gmap string TempInfo :=
  <["rare" := mkTempInfo ("120-125" +:+ deg) "2-3 minutes per side"]>
  (<["medium rare" := mkTempInfo ("130-135" +:+ deg) "3-4 minutes per side"]>
  (<["medium" := mkTempInfo ("135-145" +:+ deg) "4-5 minutes per side"]>
  (<["medium well" := mkTempInfo ("145-155" +:+ deg) "5-6 minutes per side"]>
  (<["well done" := mkTempInfo ("155" +:+ deg +:+ "+") "6+ minutes per side"]> ∅)))).

(** The text message of [sendSteakInstructions]: the template literal of
    the source with its five holes filled; the fixed decoration between the
    holes is the template's and carries no data. *)
Record SteakMessage : Type := mkSteakMessage {
  msg_name : string;
  msg_favoriteColor : string;
  msg_steakPreference : string;
  msg_temp : string;
  msg_time : string
}.

(** The argument of [twilioClient.messages.create]. *)
Record Sms : Type := mkSms {
  body : SteakMessage;
  from : string;
  to : string
}.

(** TwiML verbs of the response. *)
Inductive Verb : Type :=
| Say (voice text : string)
| Gather (input : string) (timeout : nat) (action method : string)
| Hangup.

Inductive LogLine : Type :=
| console_error (what : string) (error : Exn)
| console_log (what : string).

(** What a handler can change: the database, the console, and the requests
    made to Twilio's messaging API. *)
Record World : Type := mkWorld {
  db : Db;
  console : list LogLine;
  sms_requests : list Sms
}.

(** The SQL statements of the program. *)
Inductive Stmt : Type :=
| SelectSession | InsertSession | UpdateSession | ReplaceCustomer.

(** The collaborators as one request sees them. *)
Record Collaborators : Type := mkCollaborators {
  (** [openai.chat.completions.create ({ messages, ... })] reduced to
      [choices[0].message.content], or the error it throws. *)
  openai_create : list Message -> Exn + string;
  (** [twilioClient.messages.create]. *)
  twilio_create : Sms -> Exn + unit;
  (** The [err] argument SQLite hands to the callback of a statement. *)
  sqlite_err : Stmt -> option Exn;
  (** [config.twilio.phoneNumber]. *)
  twilio_phoneNumber : string
}.

(** ** Promises and [try]/[catch] *)

Inductive Completion (A : Type) : Type :=
| Normal (a : A)
| Throw (e : Exn).
Arguments Normal {A} a.
Arguments Throw {A} e.

Definition M (A : Type) : Type := World -> Completion A * World.

Definition ret {A} (a : A) : M A := fun w => (Normal a, w).

Definition throw {A} (e : Exn) : M A := fun w => (Throw e, w).

Definition bind {A B} (m : M A) (k : A -> M B) : M B :=
  fun w =>
    match m w with
    | (Normal a, w') => k a w'
    | (Throw e, w') => (Throw e, w')
    end.

(** [try { m } catch (error) { h error }]: what [m] did before it threw
    stays done. *)
Definition try_catch {A} (m : M A) (h : Exn -> M A) : M A :=
  fun w =>
    match m w with
    | (Normal a, w') => (Normal a, w')
    | (Throw e, w') => h e w'
    end.

Notation "x <- m ;; k" := (bind m (fun x => k))
  (at level 100, m at next level, right associativity).
Notation "m ;;; k" := (bind m (fun _ => k))
  (at level 100, right associativity).

Definition log (l : LogLine) : M unit :=
  fun w => (Normal tt, mkWorld (db w) (console w ++ [l]) (sms_requests w)).

Definition get_db : M Db := fun w => (Normal (db w), w).

Definition put_db (d : Db) : M unit :=
  fun w => (Normal tt, mkWorld d (console w) (sms_requests w)).

Definition of_sum {A} (r : Exn + A) : M A :=
  match r with inl e => throw e | inr a => ret a end.

(** ** The SQL statements, on the database value *)

(** [SELECT * FROM call_sessions WHERE call_sid = ?] as [db.get] reads it:
    the first row of the result, [None] ([undefined]) when it is empty. *)
Definition select_session (callSid : string) (d : Db)
  : option CallSessions.row :=
  List.find (fun r => String.eqb (CallSessions.call_sid r) callSid)
            (call_sessions d).

(** [INSERT INTO call_sessions (call_sid, phone_number, conversation_state,
    collected_data) VALUES (?, ?, '[]', '{}')]; returns [this.lastID].
    The table has no UNIQUE constraint on [call_sid]. *)
Definition insert_session (callSid phoneNumber : string) (d : Db) : nat * Db :=
  let lastID := S (call_sessions_seq d) in
  (lastID,
   mkDb (call_sessions d ++
           [CallSessions.mkRow lastID callSid phoneNumber (Some []) empty_info])
        lastID (customers d) (customers_seq d)).

(** [UPDATE call_sessions SET conversation_state = ?, collected_data = ?
    WHERE call_sid = ?]: every row of that [call_sid]. *)
Definition update_session (callSid : string) (history : list Message)
    (collectedData : Info) (d : Db) : Db :=
  mkDb (map (fun r =>
               if String.eqb (CallSessions.call_sid r) callSid
               then CallSessions.mkRow (CallSessions.id r)
                      (CallSessions.call_sid r) (CallSessions.phone_number r)
                      (Some history) collectedData
               else r)
            (call_sessions d))
       (call_sessions_seq d) (customers d) (customers_seq d).

(** [INSERT OR REPLACE INTO customers (phone_number, name, favorite_color,
    steak_preference) VALUES (?, ?, ?, ?)]: the row of that phone number, if
    any, is replaced by a new one. *)
Definition replace_customer (phoneNumber : string) (info : Info) (d : Db) : Db :=
  let lastID := S (customers_seq d) in
  mkDb (call_sessions d) (call_sessions_seq d)
       (<[phoneNumber :=
            Customers.mkRow lastID (name info) (favoriteColor info)
                            (steakPreference info)]> (customers d))
       lastID.

(** ** JavaScript helpers *)

(** [array.join(sep)]. *)
Fixpoint join (sep : string) (l : list string) : string :=
  match l with
  | [] => ""
  | [x] => x
  | x :: rest => x +:+ sep +:+ join sep rest
  end.

(** [array.slice(-n)]: the last [n] entries. *)
Definition slice_last {A} (n : nat) (l : list A) : list A :=
  drop (length l - n) l.

(** A value used as a condition: an absent property and the empty string
    are falsy. *)
Definition truthy (v : option string) : bool :=
  match v with
  | Some s => negb (String.eqb s "")
  | None => false
  end.

(** A hole of a template literal. *)
Definition interpolate (v : option string) : string :=
  match v with Some s => s | None => "undefined" end.

(** ** The handlers *)

(** What one dialogue turn amounts to; each constructor is one of the three
    branches of the [/gather] handler, with the prompt it speaks. *)
Inductive TurnOutcome : Type :=
| Continue (spokenPrompt : string)
| Complete (spokenPrompt : string) (record : Info)
| Failed (spokenPrompt : string).

Definition gather_verb : Verb := Gather "speech" 10 "/gather" "POST".

(** The TwiML each branch builds. *)
Definition twiml_of (o : TurnOutcome) : list Verb :=
  match o with
  | Continue p => [Say "alice" p; gather_verb]
  | Complete p _ => [Say "alice" p; Hangup]
  | Failed p => [Say "alice" p; gather_verb]
  end.

Definition systemPrompt : string :=
  "You are a friendly phone assistant collecting customer information. 
        Your job is to:
        1. Greet the caller warmly
        2. Collect their name
        3. Ask for their favorite color
        4. Ask how they like their steak cooked (rare, medium rare, medium, medium well, well done)
        
        Keep responses brief and conversational. When you have all three pieces of information, 
        thank them and let them know they'll receive a text with cooking instructions.
        
        Always respond in a natural, friendly tone as if speaking on the phone.".

Definition greeting : string :=
  "Hello! I'm calling to collect some quick information for our steak cooking service. This will just take a minute.".

Definition closing (name : option string) : string :=
  "Perfect! Thanks " +:+ interpolate name +:+
  ". I've got your information and you'll receive a text with your personalized steak cooking instructions shortly. Have a great day!".

Definition apology : string :=
  "I'm sorry, I'm having trouble processing that. Let me try again.".

(** The body of a webhook request. *)
Record Request : Type := mkRequest {
  SpeechResult : option string;
  CallSid : string;
  From : string
}.

Section Handlers.

Variable env : Collaborators.

(** Run one statement: SQLite either reports [err] and changes nothing,
    or executes it. *)
Definition sqlite {A} (st : Stmt) (run : Db -> A * Db) : M A :=
  fun w =>
    match sqlite_err env st with
    | Some e => (Throw e, w)
    | None =>
        let (a, d) := run (db w) in
        (Normal a, mkWorld d (console w) (sms_requests w))
    end.

Definition getOrCreateSession (callSid phoneNumber : string)
  : M CallSessions.row :=
  row <- sqlite SelectSession (fun d => (select_session callSid d, d)) ;;
  match row with
  | Some r => ret r
  | None =>
      lastID <- sqlite InsertSession (insert_session callSid phoneNumber) ;;
      ret (CallSessions.mkRow lastID callSid phoneNumber (Some []) empty_info)
  end.

(** Resolves with the row, or with [undefined] when there is none. *)
Definition getSession (callSid : string) : M (option CallSessions.row) :=
  sqlite SelectSession (fun d => (select_session callSid d, d)).

Definition updateSession (callSid : string) (conversationHistory : list Message)
    (collectedData : Info) : M unit :=
  sqlite UpdateSession
    (fun d => (tt, update_session callSid conversationHistory collectedData d)).

Definition saveCustomerData (phoneNumber : string) (info : Info) : M unit :=
  sqlite ReplaceCustomer (fun d => (tt, replace_customer phoneNumber info d)).

Definition generateResponse (conversationHistory : list Message)
    (userInput : string) : M string :=
  let messages :=
    [mkMessage system systemPrompt] ++ conversationHistory ++
    [mkMessage user userInput] in
  of_sum (openai_create env messages).

(** [steakTemperatures[steakPreference.toLowerCase()] ||
    steakTemperatures['medium']]. *)
Definition tempInfo_for (pref : string) : option TempInfo :=
  match steakTemperatures !! toLowerCase pref with
  | Some t => Some t
  | None => steakTemperatures !! "medium"
  end.

(** The request of [sendSteakInstructions] to Twilio. *)
Definition steak_sms (phoneNumber : string) (customerInfo : Info)
    (pref : string) (tempInfo : TempInfo) : Sms :=
  mkSms (mkSteakMessage (interpolate (name customerInfo))
                        (interpolate (favoriteColor customerInfo))
                        pref (temp tempInfo) (time tempInfo))
        (twilio_phoneNumber env) phoneNumber.

Definition messages_create (m : Sms) : M unit :=
  fun w =>
    let w' := mkWorld (db w) (console w) (sms_requests w ++ [m]) in
    match twilio_create env m with
    | inl e => (Throw e, w')
    | inr _ => (Normal tt, w')
    end.

Definition sendSteakInstructions (phoneNumber : string) (customerInfo : Info)
  : M unit :=
  match steakPreference customerInfo with
  | None => throw TypeError     (* [steakPreference.toLowerCase()] *)
  | Some pref =>
      match tempInfo_for pref with
      | None => throw TypeError (* [tempInfo.temp] *)
      | Some tempInfo =>
          try_catch
            (messages_create (steak_sms phoneNumber customerInfo pref tempInfo) ;;;
             log (console_log ("Sent steak instructions to " +:+ phoneNumber)))
            (fun error => log (console_error "Error sending SMS:" error))
      end
  end.

(** The [try] block of [/gather]. *)
Definition gather_try (speechResult callSid from : string) : M TurnOutcome :=
  session <- getSession callSid ;;
  match session with
  | None => throw TypeError     (* [session.conversation_state] *)
  | Some row =>
      let conversationHistory :=
        match CallSessions.conversation_state row with
        | Some h => h
        | None => []
        end in
      let conversationHistory :=
        conversationHistory ++ [mkMessage user speechResult] in
      aiResponse <-
        generateResponse (slice_last 6 conversationHistory) speechResult ;;
      let conversationHistory :=
        conversationHistory ++ [mkMessage assistant aiResponse] in
      let fullConversation := join " " (map content conversationHistory) in
      let extractedInfo := extractInformation fullConversation in
      updateSession callSid conversationHistory extractedInfo ;;;
      if truthy (name extractedInfo) && truthy (favoriteColor extractedInfo)
         && truthy (steakPreference extractedInfo)
      then
        saveCustomerData from extractedInfo ;;;
        sendSteakInstructions from extractedInfo ;;;
        ret (Complete (closing (name extractedInfo)) extractedInfo)
      else ret (Continue aiResponse)
  end.

(** One dialogue turn: the [/gather] handler up to the rendering of its
    response. *)
Definition handleTurn (req : Request) : M TurnOutcome :=
  let speechResult :=
    match SpeechResult req with
    | Some s => s       (* the empty string is falsy and gives [''] too *)
    | None => ""
    end in
  try_catch
    (gather_try speechResult (CallSid req) (From req))
    (fun error =>
       log (console_error "Error processing call:" error) ;;;
       ret (Failed apology)).

(** [app.post('/gather', ...)]: the TwiML sent back. *)
Definition gather (req : Request) : M (list Verb) :=
  o <- handleTurn req ;; ret (twiml_of o).

(** [app.post('/voice', ...)]. *)
Definition voice (req : Request) : M (list Verb) :=
  getOrCreateSession (CallSid req) (From req) ;;;
  ret [Say "alice" greeting; gather_verb].

End Handlers.

(** ** Two overlapping invocations of [getOrCreateSession]

    [getOrCreateSession] issues its SELECT, and issues its INSERT from the
    callback of the SELECT: between the two statements the event loop can
    run the callbacks of another request.  An invocation is therefore a
    two-step process, and two invocations are run by a schedule that says
    whose statement SQLite executes next. *)

Inductive Pending : Type :=
| AwaitSelect                                (* [db.get] issued *)
| AwaitInsert                                (* [db.run] issued *)
| Settled (r : Completion CallSessions.row). (* resolved or rejected *)

Section Interleaving.

Variable env : Collaborators.

(** SQLite executes the pending statement of an invocation and its
    callback runs. *)
Definition callback (callSid phoneNumber : string) (p : Pending) (w : World)
  : Pending * World :=
  match p with
  | AwaitSelect =>
      match sqlite env SelectSession (fun d => (select_session callSid d, d)) w with
      | (Throw e, w') => (Settled (Throw e), w')
      | (Normal (Some r), w') => (Settled (Normal r), w')
      | (Normal None, w') => (AwaitInsert, w')
      end
  | AwaitInsert =>
      match sqlite env InsertSession (insert_session callSid phoneNumber) w with
      | (Throw e, w') => (Settled (Throw e), w')
      | (Normal lastID, w') =>
          (Settled (Normal (CallSessions.mkRow lastID callSid phoneNumber
                                               (Some []) empty_info)), w')
      end
  | Settled r => (Settled r, w)
  end.

(** Two invocations for the same [callSid]; [true] in the schedule runs
    the next statement of the first one, [false] of the second one. *)
Fixpoint interleave (callSid phone1 phone2 : string) (schedule : list bool)
    (p1 p2 : Pending) (w : World) : Pending * Pending * World :=
  match schedule with
  | [] => (p1, p2, w)
  | true :: rest =>
      let (p1', w') := callback callSid phone1 p1 w in
      interleave callSid phone1 phone2 rest p1' p2 w'
  | false :: rest =>
      let (p2', w') := callback callSid phone2 p2 w in
      interleave callSid phone1 phone2 rest p1 p2' w'
  end.

End Interleaving.

(** The rows of one call. *)
Definition sessions_of (callSid : string) (d : Db) : list CallSessions.row :=
  List.filter (fun r => String.eqb (CallSessions.call_sid r) callSid)
              (call_sessions d).

Definition session_count (callSid : string) (w : World) : nat :=
  length (sessions_of callSid (db w)).

(** An invocation that has settled has resolved with a row of the call. *)
Definition settled_ok (callSid : string) (p : Pending) : Prop :=
  match p with
  | Settled (Normal r) => CallSessions.call_sid r = callSid
  | Settled (Throw _) => False
  | _ => True
  end.

Definition settled (p : Pending) : nat :=
  match p with Settled _ => 1 | _ => 0 end.

(** The invariant of two overlapping invocations on a table that had [c0]
    rows of the call: every further row was inserted by an invocation that
    has settled, and an invocation settles only when a row exists. *)
Definition overlap_inv (callSid : string) (c0 : nat) (p1 p2 : Pending) (w : World)
  : Prop :=
  settled_ok callSid p1 /\ settled_ok callSid p2 /\
  c0 <= session_count callSid w /\
  session_count callSid w <= c0 + settled p1 + settled p2 /\
  (1 <= settled p1 + settled p2 -> 1 <= session_count callSid w).

(** ** The partial record of a call, as persisted *)

Definition history_of (r : CallSessions.row) : list Message :=
  match CallSessions.conversation_state r with
  | Some h => h
  | None => []
  end.

Definition fullConversation (h : list Message) : string :=
  join " " (map content h).

(** What [getSession] would hand to the next turn. *)
Definition partialRecord (w : World) (callSid : string) : Info :=
  match select_session callSid (db w) with
  | Some r => CallSessions.collected_data r
  | None => empty_info
  end.

Definition storedHistory (w : World) (callSid : string) : list Message :=
  match select_session callSid (db w) with
  | Some r => history_of r
  | None => []
  end.

Definition is_set (v : option string) : Prop := exists s, v = Some s.

(** Every field set in [i] is set in [j]. *)
Definition info_le (i j : Info) : Prop :=
  (is_set (name i) -> is_set (name j)) /\
  (is_set (favoriteColor i) -> is_set (favoriteColor j)) /\
  (is_set (steakPreference i) -> is_set (steakPreference j)).

Definition all_present (i : Info) : Prop :=
  is_set (name i) /\ is_set (favoriteColor i) /\ is_set (steakPreference i).

(** The stored partial record of a row holds nothing the stored history
    does not yield: true of a new row and kept by every turn. *)
Definition row_consistent (r : CallSessions.row) : Prop :=
  info_le (CallSessions.collected_data r)
          (extractInformation (fullConversation (history_of r))).

Definition consistent (w : World) : Prop :=
  Forall row_consistent (call_sessions (db w)).

(** The history a successful turn stores. *)
Definition next_history (r : CallSessions.row) (speechResult aiResponse : string)
  : list Message :=
  (history_of r ++ [mkMessage user speechResult]) ++
  [mkMessage assistant aiResponse].

(** The request [generateResponse] sends for a turn on row [r]. *)
Definition turn_messages (r : CallSessions.row) (speechResult : string)
  : list Message :=
  [mkMessage system systemPrompt] ++
  slice_last 6 (history_of r ++ [mkMessage user speechResult]) ++
  [mkMessage user speechResult].

Definition speech_of (req : Request) : string :=
  match SpeechResult req with Some s => s | None => "" end.

(** Concrete collaborators and worlds used in the examples. *)
Definition no_sqlite_err : Stmt -> option Exn := fun _ => None.

Definition all_up (reply : string) : Collaborators :=
  mkCollaborators (fun _ => inr reply) (fun _ => inr tt) no_sqlite_err "+15550100".

Definition openai_down : Collaborators :=
  mkCollaborators (fun _ => inl (Error "503")) (fun _ => inr tt)
                  no_sqlite_err "+15550100".

Definition twilio_down (reply : string) : Collaborators :=
  mkCollaborators (fun _ => inr reply) (fun _ => inl (Error "21211"))
                  no_sqlite_err "+15550100".

Definition empty_world : World := mkWorld (mkDb [] 0 ∅ 0) [] [].

(** The same collaborators with another behaviour of Twilio. *)
Definition with_twilio (env : Collaborators) (f : Sms -> Exn + unit)
  : Collaborators :=
  mkCollaborators (openai_create env) f (sqlite_err env) (twilio_phoneNumber env).

(** The webhooks the server receives, each with the collaborators as they
    behave while it is handled, and the world after a sequence of them. *)
Inductive Webhook : Type :=
| PostVoice (env : Collaborators) (req : Request)
| PostGather (env : Collaborators) (req : Request).

Definition deliver (w : World) (h : Webhook) : World :=
  match h with
  | PostVoice env req => snd (voice env req w)
  | PostGather env req => snd (gather env req w)
  end.

Definition run_webhooks (calls : list Webhook) (w : World) : World :=
  fold_left deliver calls w.

(** A call in progress: the caller [+15550123] was greeted on call [CA1]
    and has said one sentence, answered by the assistant. *)
Definition req_voice : Request := mkRequest None "CA1" "+15550123".

Definition req_turn (speech : string) : Request :=
  mkRequest (Some speech) "CA1" "+15550123".

Definition after_voice : World :=
  snd (voice (all_up "") req_voice empty_world).

Definition after_turn1 : World :=
  snd (handleTurn (all_up "Nice to meet you, Sam! What is your favorite color?")
                  (req_turn "Hi, my name is Sam") after_voice).

Definition after_turn2 : World :=
  snd (handleTurn (all_up "Blue, great. And how do you like your steak?")
                  (req_turn "I like blue") after_turn1).

(** ** Vocabulary of the statements about the extractor *)

(** Every code unit of the model. *)
Definition all_chars : list ascii := map ascii_of_nat (seq 0 256).

(** [s] consists of characters of [\w] only. *)
Fixpoint all_word (s : string) : bool :=
  match s with
  | EmptyString => true
  | String c s' => Char.is_word c && all_word s'
  end.

(** [s] begins with a character of [\w]. *)
Definition starts_with_word (s : string) : bool :=
  match s with
  | EmptyString => false
  | String c _ => Char.is_word c
  end.

(** The characters the cues of the name patterns are written with: ASCII,
    and no capital letter. *)
Definition cue_char (a : ascii) : bool :=
  (Char.code a <? 128) && negb (Char.is_upper a).

Fixpoint cue_string (s : string) : bool :=
  match s with
  | EmptyString => true
  | String c s' => cue_char c && cue_string s'
  end.

(** The cue of a name pattern stands in [conversation], in any case,
    directly before a character of [\w]. *)
Definition cue_before_word (cue conversation : string) : Prop :=
  exists (pre lit : string) (c : ascii) (post : string),
    conversation = pre +:+ lit +:+ String c post /\
    toLowerCase lit = cue /\ Char.is_word c = true.

(** ** Vocabulary of the statements about the handlers *)

(** The record a turn on row [r] extracts, and the database after its
    UPDATE. *)
Definition turn_info (r : CallSessions.row) (req : Request) (aiResponse : string)
  : Info :=
  extractInformation (fullConversation (next_history r (speech_of req) aiResponse)).

Definition turn_db (r : CallSessions.row) (req : Request) (aiResponse : string)
    (d : Db) : Db :=
  update_session (CallSid req) (next_history r (speech_of req) aiResponse)
                 (turn_info r req aiResponse) d.

(** The doneness labels the extractor can return. *)
Definition extractable_prefs : list string :=
  ["rare"; "medium well"; "medium"; "well done"].

(** A complete customer row: a name that is a word, a color and a doneness
    of the vocabularies. *)
Definition customer_complete (r : Customers.row) : Prop :=
  exists n c p,
    Customers.name r = Some n /\ n <> "" /\ all_word n = true /\
    Customers.favorite_color r = Some c /\ In c colors /\
    Customers.steak_preference r = Some p /\ In p extractable_prefs.

(** A text message that carries the cooking data of its own doneness
    label. *)
Definition sms_matches_table (m : Sms) : Prop :=
  In (msg_steakPreference (body m)) extractable_prefs /\
  steakTemperatures !! msg_steakPreference (body m) =
    Some (mkTempInfo (msg_temp (body m)) (msg_time (body m))).

(** The two requests agree on everything but the generation service. *)
Definition same_but_openai (env1 env2 : Collaborators) : Prop :=
  twilio_create env1 = twilio_create env2 /\
  sqlite_err env1 = sqlite_err env2 /\
  twilio_phoneNumber env1 = twilio_phoneNumber env2.

(** An invocation of [getOrCreateSession] that has not settled before its
    SELECT, or has resolved with row [r]. *)
Definition found_or_waiting (r : CallSessions.row) (p : Pending) : Prop :=
  p = AwaitSelect \/ p = Settled (Normal r).

(** Who a row belongs to: the columns no statement of the program
    changes. *)
Definition row_key (r : CallSessions.row) : nat * string * string :=
  (CallSessions.id r, CallSessions.call_sid r, CallSessions.phone_number r).

(** SQLite fails on the customer upsert only. *)
Definition save_down (reply : string) : Collaborators :=
  mkCollaborators (fun _ => inr reply) (fun _ => inr tt)
    (fun st => match st with
               | ReplaceCustomer => Some (Error "SQLITE_BUSY")
               | _ => None
               end)
    "+15550100".

(** What holds of the customers and the text messages of every world the
    server reaches. *)
Definition records_sound (w : World) : Prop :=
  map_Forall (fun _ r => customer_complete r) (customers (db w)) /\
  Forall (fun m => sms_matches_table m /\ is_Some (customers (db w) !! to m))
         (sms_requests w).

(** A whole call, from the greeting to the third answer. *)
Definition call_of_sam : list Webhook :=
  [PostVoice (all_up "") req_voice;
   PostGather (all_up "Nice to meet you, Sam! What is your favorite color?")
              (req_turn "Hi, my name is Sam");
   PostGather (all_up "Blue, great. And how do you like your steak?")
              (req_turn "I like blue");
   PostGather (twilio_down "Thanks!") (req_turn "Medium well please")].

(** A history made of exchanges: a user message, then an assistant
    message, and so on. *)
Fixpoint exchanges (h : list Message) : bool :=
  match h with
  | [] => true
  | u :: a :: rest =>
      match role u, role a with
      | user, assistant => exchanges rest
      | _, _ => false
      end
  | _ => false
  end.

(** Every row has a stored history (no NULL), made of exchanges. *)
Definition histories_wellformed (w : World) : Prop :=
  Forall (fun r => exists h, CallSessions.conversation_state r = Some h /\
                             exchanges h = true)
         (call_sessions (db w)).

(** The stored partial record of every row is the extraction over its
    stored history. *)
Definition records_extracted (w : World) : Prop :=
  Forall (fun r => CallSessions.collected_data r
                   = extractInformation (fullConversation (history_of r)))
         (call_sessions (db w)).

(** * Theorems *)

(** ** Strings *)

#[local] Arguments String.append !_ _ / : simpl nomatch.

Lemma append_assoc (a b c : string) : (a +:+ b) +:+ c = a +:+ (b +:+ c).
Proof. induction a as [|x a IH]; simpl; [reflexivity | now rewrite IH]. Qed.

Lemma append_empty_r (a : string) : a +:+ "" = a.
Proof. induction a as [|x a IH]; simpl; [reflexivity | now rewrite IH]. Qed.

Lemma toLowerCase_append (a b : string) :
  toLowerCase (a +:+ b) = toLowerCase a +:+ toLowerCase b.
Proof. induction a as [|x a IH]; simpl; [reflexivity | now rewrite IH]. Qed.

Lemma startsWith_spec (p s : string) :
  startsWith p s = true <-> exists post, s = p +:+ post.
Proof.
  revert s. induction p as [|a p IH]; intros s; simpl.
  - split; [intros _; now exists s | reflexivity].
  - destruct s as [|b s].
    + split; [discriminate | intros [post H]; discriminate].
    + rewrite andb_true_iff, Ascii.eqb_eq, IH. split.
      * intros [-> [post ->]]. now exists post.
      * intros [post H]. injection H as -> ->. split; [reflexivity | now exists post].
Qed.

Lemma includes_spec (s p : string) : includes s p = true <-> contains s p.
Proof.
  unfold contains. induction s as [|c s IH].
  - simpl. rewrite orb_false_r, startsWith_spec. split.
    + intros [post H]. now exists "", post.
    + intros [pre [post H]]. destruct pre; simpl in H; [now exists post | discriminate].
  - cbn [includes]. rewrite orb_true_iff, startsWith_spec, IH. split.
    + intros [[post H] | [pre [post H]]].
      * now exists "", post.
      * exists (String c pre), post. simpl. now rewrite H.
    + intros [pre [post H]]. destruct pre as [|x pre]; simpl in H.
      * left. now exists post.
      * right. injection H as _ H. now exists pre, post.
Qed.

Lemma contains_append_r (s p ext : string) : contains s p -> contains (s +:+ ext) p.
Proof.
  intros [pre [post ->]]. exists pre, (post +:+ ext).
  now rewrite !append_assoc.
Qed.

Lemma includes_append_r (s p ext : string) :
  includes s p = true -> includes (s +:+ ext) p = true.
Proof. rewrite !includes_spec. apply contains_append_r. Qed.

(** A phrase that contains ["rare"] drags it along. *)
Lemma contains_medium_rare (s : string) :
  contains s "medium rare" -> contains s "rare".
Proof.
  intros [pre [post ->]]. exists (pre +:+ "medium "), post.
  now rewrite append_assoc.
Qed.

(** ** The vocabulary loops *)

Lemma first_included_head (w : string) (rest : list string) (text : string) :
  includes text w = true -> first_included (w :: rest) text = Some w.
Proof. intros H. simpl. now rewrite H. Qed.

(** The loop returns the first word of the vocabulary the text includes. *)
Lemma first_included_spec (voc : list string) (text w : string) :
  first_included voc text = Some w <->
  exists l1 l2, voc = l1 ++ w :: l2 /\ includes text w = true /\
                Forall (fun x => includes text x = false) l1.
Proof.
  induction voc as [|v voc IH]; simpl.
  - split; [discriminate | intros (l1 & l2 & H & _); now destruct l1].
  - destruct (includes text v) eqn:Hv.
    + split.
      * intros [= <-]. now exists [], voc.
      * intros (l1 & l2 & H & Hw & Hl1). destruct l1 as [|x l1]; simpl in H.
        -- now injection H as ->.
        -- injection H as -> _. inversion Hl1; congruence.
    + rewrite IH. split.
      * intros (l1 & l2 & -> & Hw & Hl1). exists (v :: l1), l2. auto.
      * intros (l1 & l2 & H & Hw & Hl1). destruct l1 as [|x l1]; simpl in H.
        -- injection H as -> _. congruence.
        -- injection H as -> ->. inversion Hl1; subst. now exists l1, l2.
Qed.

Lemma first_included_in (voc : list string) (text w : string) :
  first_included voc text = Some w -> In w voc /\ includes text w = true.
Proof.
  rewrite first_included_spec. intros (l1 & l2 & -> & Hw & _).
  split; [apply in_or_app; right; now left | assumption].
Qed.

Lemma first_included_set (voc : list string) (text w : string) :
  In w voc -> includes text w = true -> is_set (first_included voc text).
Proof.
  induction voc as [|v voc IH]; simpl; [tauto|].
  intros [-> | Hin] Hw.
  - rewrite Hw. now exists w.
  - destruct (includes text v); [now exists v | now apply IH].
Qed.

Lemma first_included_mono (voc : list string) (text ext : string) :
  is_set (first_included voc text) ->
  is_set (first_included voc (text +:+ ext)).
Proof.
  intros [w Hw]. apply first_included_in in Hw as [Hin Hw].
  apply first_included_set with w; [assumption|].
  now apply includes_append_r.
Qed.

(** ** The name patterns *)

Lemma is_set_intro (v : option string) (s : string) : v = Some s -> is_set v.
Proof. intros H. now exists s. Qed.

Lemma match_literal_append (cue s rest ext : string) :
  match_literal cue s = Some rest ->
  match_literal cue (s +:+ ext) = Some (rest +:+ ext).
Proof.
  revert s. induction cue as [|a cue IH]; intros s; simpl.
  - now intros [= ->].
  - destruct s as [|b s]; [discriminate|]. simpl.
    destruct (Char.eqb_ci a b); [apply IH | discriminate].
Qed.

Lemma take_word_append (c : ascii) (w rest ext : string) :
  take_word rest = String c w ->
  exists w', take_word (rest +:+ ext) = String c w'.
Proof.
  destruct rest as [|x rest]; simpl; [discriminate|].
  destruct (Char.is_word x); [|discriminate].
  intros [= -> _]. eauto.
Qed.

Lemma match_at_nonempty (cue s w : string) : match_at cue s = Some w -> w <> "".
Proof.
  unfold match_at. destruct (match_literal cue s) as [rest|]; [|discriminate].
  destruct (take_word rest); [discriminate | now intros [= <-]].
Qed.

Lemma match_at_mono (cue s ext : string) :
  is_set (match_at cue s) -> is_set (match_at cue (s +:+ ext)).
Proof.
  unfold match_at. intros [w H].
  destruct (match_literal cue s) as [rest|] eqn:Hl; [|discriminate].
  rewrite (match_literal_append _ _ _ ext Hl).
  destruct (take_word rest) as [|c w0] eqn:Hw; [discriminate|].
  destruct (take_word_append _ _ _ ext Hw) as [w' ->]. now eexists.
Qed.

Lemma regex_match_of_match_at (cue s w : string) :
  match_at cue s = Some w -> regex_match cue s = Some w.
Proof. intros H. destruct s; simpl; now rewrite H. Qed.

Lemma regex_match_nonempty (cue s w : string) :
  regex_match cue s = Some w -> w <> "".
Proof.
  induction s as [|c s IH]; simpl.
  - destruct (match_at cue "") eqn:H; [|discriminate].
    intros [= <-]. eapply match_at_nonempty, H.
  - destruct (match_at cue (String c s)) eqn:H; [|exact IH].
    intros [= <-]. eapply match_at_nonempty, H.
Qed.

Lemma regex_match_mono (cue s ext : string) :
  is_set (regex_match cue s) -> is_set (regex_match cue (s +:+ ext)).
Proof.
  induction s as [|c s IH]; intros [w H].
  - simpl in H. destruct (match_at cue "") eqn:Hm; [|discriminate].
    destruct (match_at_mono cue "" ext) as [w' Hw']; [eapply is_set_intro, Hm|].
    exists w'. now apply regex_match_of_match_at.
  - simpl in H. destruct (match_at cue (String c s)) eqn:Hm.
    + destruct (match_at_mono cue (String c s) ext) as [w' Hw']; [eapply is_set_intro, Hm|].
      exists w'. now apply regex_match_of_match_at.
    + simpl. destruct (match_at cue (String c (s +:+ ext))); [now eexists|].
      apply IH. now exists w.
Qed.

(** Positions at which the pattern does not match are skipped. *)
Lemma regex_match_skip (cue pre s : string) :
  no_match_within cue pre s = true ->
  regex_match cue (pre +:+ s) = regex_match cue s.
Proof.
  induction pre as [|c pre IH]; intros H; [reflexivity|].
  cbn [no_match_within] in H.
  change (String c pre +:+ s) with (String c (pre +:+ s)) in *.
  cbn [regex_match]. destruct (match_at cue (String c (pre +:+ s))); [discriminate|].
  now apply IH.
Qed.

Lemma first_match_mono (patterns : list string) (s ext : string) :
  is_set (first_match patterns s) -> is_set (first_match patterns (s +:+ ext)).
Proof.
  induction patterns as [|cue rest IH]; simpl; [intros [w H]; discriminate|].
  intros H. destruct (regex_match cue (s +:+ ext)) eqn:He; [now eexists|].
  destruct (regex_match cue s) eqn:Hs; [|now apply IH].
  destruct (regex_match_mono cue s ext) as [w' Hw']; [eapply is_set_intro, Hs | congruence].
Qed.

Lemma first_match_nonempty (patterns : list string) (s w : string) :
  first_match patterns s = Some w -> w <> "".
Proof.
  induction patterns as [|cue rest IH]; simpl; [discriminate|].
  destruct (regex_match cue s) eqn:H; [|exact IH].
  intros [= <-]. eapply regex_match_nonempty, H.
Qed.

(** ** The extractor *)

(** Extending the transcript never drops a field. *)
Lemma extractInformation_mono (conversation ext : string) :
  info_le (extractInformation conversation)
          (extractInformation (conversation +:+ ext)).
Proof.
  unfold info_le, extractInformation; cbn [name favoriteColor steakPreference].
  rewrite toLowerCase_append. repeat split.
  - apply first_match_mono.
  - apply first_included_mono.
  - apply first_included_mono.
Qed.

(** A field the extractor sets is a non-empty string, hence truthy. *)
Lemma extracted_truthy (conversation : string) :
  let i := extractInformation conversation in
  (truthy (name i) = true <-> is_set (name i)) /\
  (truthy (favoriteColor i) = true <-> is_set (favoriteColor i)) /\
  (truthy (steakPreference i) = true <-> is_set (steakPreference i)).
Proof.
  assert (T : forall v : option string,
             (forall s, v = Some s -> s <> "") ->
             (truthy v = true <-> is_set v)).
  { intros [s|] H; simpl.
    - split; [now eexists|]. intros _. apply negb_true_iff, String.eqb_neq. now apply H.
    - split; [discriminate | intros [s Hs]; discriminate]. }
  cbn zeta. unfold extractInformation; cbn [name favoriteColor steakPreference].
  repeat split; try (apply T; intros s Hs); try (apply T; intros s Hs).
  all: try (eapply first_match_nonempty; eassumption).
  all: apply first_included_in in Hs as [Hin _]; simpl in Hin;
       intuition (subst; discriminate).
Qed.

(** ** Claims about the slot extractor *)

(** C1.  The code does not return ["medium rare"]: [steakPrefs] lists
    ["rare"] before ["medium rare"], and every text that includes
    ["medium rare"] includes ["rare"], so the loop stops at ["rare"].  For
    every transcript whose lower-cased text contains ["medium rare"] the
    extractor returns [steakPreference = "rare"]. *)
Theorem medium_rare_extracted_as_rare (conversation : string) :
  contains (toLowerCase conversation) "medium rare" ->
  steakPreference (extractInformation conversation) = Some "rare".
Proof.
  intros H. apply contains_medium_rare, includes_spec in H.
  unfold extractInformation; cbn [steakPreference].
  now apply first_included_head.
Qed.

Lemma medium_rare_extracted_as_rare_witness :
  contains (toLowerCase "I like my steak Medium Rare") "medium rare" /\
  steakPreference (extractInformation "I like my steak Medium Rare") = Some "rare".
Proof.
  assert (H : contains (toLowerCase "I like my steak Medium Rare") "medium rare").
  { exists "i like my steak ", "". reflexivity. }
  split; [exact H | exact (medium_rare_extracted_as_rare _ H)].
Defined.

(** The entry ["medium rare"] of [steakPrefs] is never the answer. *)
Lemma medium_rare_unreachable (conversation : string) :
  steakPreference (extractInformation conversation) <> Some "medium rare".
Proof.
  unfold extractInformation; cbn [steakPreference]. intros H.
  pose proof H as H'. apply first_included_in in H' as [_ Hin].
  apply includes_spec, contains_medium_rare, includes_spec in Hin.
  unfold steakPrefs in H. rewrite (first_included_head _ _ _ Hin) in H.
  discriminate.
Qed.

(** C5.  For every transcript whose lower-cased text contains both ["blue"]
    and ["red"], the extractor returns [favoriteColor = "red"], wherever the
    two words stand in the text. *)
Theorem red_wins_over_blue (conversation : string) :
  contains (toLowerCase conversation) "blue" ->
  contains (toLowerCase conversation) "red" ->
  favoriteColor (extractInformation conversation) = Some "red".
Proof.
  intros _ Hred. apply includes_spec in Hred.
  unfold extractInformation; cbn [favoriteColor].
  now apply first_included_head.
Qed.

Lemma red_wins_over_blue_witness :
  favoriteColor (extractInformation "Blue, or maybe red") = Some "red".
Proof.
  apply red_wins_over_blue.
  - exists "", ", or maybe red". reflexivity.
  - exists "blue, or maybe ", "". reflexivity.
Defined.

(** C6, as stated, fails: the capture [(\w+)] is greedy, so a longer word
    that starts with ["Ana"] is captured whole. *)
Lemma my_name_is_Ana_counterexample :
  ~ (forall conversation : string,
       contains conversation "my name is Ana" ->
       name (extractInformation conversation) = Some "Ana").
Proof.
  intros H. specialize (H "my name is Anastasia").
  assert (C : contains "my name is Anastasia" "my name is Ana")
    by (exists "", "stasia"; reflexivity).
  specialize (H C). vm_compute in H. discriminate.
Qed.

(** C6, amended.  When the leftmost match of [/my name is (\w+)/i] is the
    phrase ["my name is Ana"] itself (no attempt that starts before it
    matches: [no_match_within]) and the phrase is followed by the end of the text or by a
    character outside [\w], the extractor returns [name = "Ana"].  The
    patterns are tried in the order "my name is X", "I'm X", "this is X",
    and the first one that matches anywhere decides: a later pattern is
    consulted only when all earlier ones match nowhere. *)
Theorem my_name_is_Ana (pre post : string) :
  (post = "" \/ exists c post', post = String c post' /\ Char.is_word c = false) ->
  no_match_within "my name is " pre ("my name is Ana" +:+ post) = true ->
  name (extractInformation (pre +:+ "my name is Ana" +:+ post)) = Some "Ana" /\
  (forall conversation w,
     (regex_match "my name is " conversation = Some w ->
      name (extractInformation conversation) = Some w) /\
     (regex_match "my name is " conversation = None ->
      regex_match "i'm " conversation = Some w ->
      name (extractInformation conversation) = Some w) /\
     (regex_match "my name is " conversation = None ->
      regex_match "i'm " conversation = None ->
      name (extractInformation conversation) = regex_match "this is " conversation)).
Proof.
  intros Hpost Hpre. split.
  - unfold extractInformation; cbn [name]. unfold namePatterns; cbn [first_match].
    rewrite (regex_match_skip _ _ _ Hpre).
    assert (Hm : match_at "my name is " ("my name is Ana" +:+ post) = Some "Ana").
    { destruct Hpost as [-> | (c & post' & -> & Hc)].
      - reflexivity.
      - unfold match_at.
        change (match_literal "my name is " ("my name is Ana" +:+ String c post'))
          with (Some ("Ana" +:+ String c post')).
        cbv beta iota.
        change (take_word ("Ana" +:+ String c post'))
          with ("Ana" +:+ take_word (String c post')).
        cbn [take_word]. rewrite Hc. reflexivity. }
    now rewrite (regex_match_of_match_at _ _ _ Hm).
  - intros conversation w.
    unfold extractInformation; cbn [name]. unfold namePatterns; cbn [first_match].
    repeat split.
    + now intros ->.
    + now intros -> ->.
    + intros -> ->. now destruct (regex_match "this is " conversation).
Qed.

Lemma my_name_is_Ana_witness :
  name (extractInformation "Hi, this is a test. my name is Ana, i'm calling about steak")
  = Some "Ana".
Proof.
  refine (proj1 (my_name_is_Ana "Hi, this is a test. "
                                ", i'm calling about steak" _ _)).
  - right. exists ","%char, " i'm calling about steak". split; reflexivity.
  - vm_compute. reflexivity.
Defined.

(** C10.  The color loop tests substrings of the lower-cased text, not
    words.  A text that contains ["bored"] anywhere gets
    [favoriteColor = "red"].  In general, when a vocabulary color [c] occurs
    anywhere in the lower-cased text, inside a longer word or not,
    [favoriteColor] is set: to [c] itself when no color listed before [c]
    occurs in the text, and otherwise to the first listed color that
    occurs. *)
Theorem color_is_substring_match (conversation : string) :
  (contains (toLowerCase conversation) "bored" ->
   favoriteColor (extractInformation conversation) = Some "red") /\
  (forall (c : string) (before after : list string) (pre post : string),
     colors = before ++ c :: after ->
     toLowerCase conversation = pre +:+ c +:+ post ->
     exists c',
       favoriteColor (extractInformation conversation) = Some c' /\
       contains (toLowerCase conversation) c' /\
       (c' = c \/ In c' before) /\
       ((forall x, In x before -> ~ contains (toLowerCase conversation) x) ->
        c' = c)).
Proof.
  unfold extractInformation; cbn [favoriteColor]. split.
  - intros [pre [post H]]. apply first_included_head, includes_spec.
    exists (pre +:+ "bo"), post. rewrite H, append_assoc. reflexivity.
  - intros c before after pre post Hvoc Htext.
    assert (Hc : includes (toLowerCase conversation) c = true)
      by (apply includes_spec; now exists pre, post).
    destruct (first_included_set colors (toLowerCase conversation) c) as [c' Hc'];
      [rewrite Hvoc; apply in_or_app; right; now left | exact Hc |].
    exists c'. split; [exact Hc'|].
    apply first_included_spec in Hc' as (l1 & l2 & Hsplit & Hin & Hl1).
    split; [now apply includes_spec|].
    assert (Hpos : c' = c \/ In c' before).
    { rewrite Hvoc in Hsplit. clear Hvoc. revert l1 Hsplit Hl1.
      induction before as [|b before IH]; intros l1 Hsplit Hl1.
      - destruct l1 as [|x l1]; cbn in Hsplit.
        + injection Hsplit as -> _. now left.
        + injection Hsplit as <- _. inversion Hl1; congruence.
      - destruct l1 as [|x l1]; cbn in Hsplit.
        + injection Hsplit as -> _. right. now left.
        + injection Hsplit as <- Hsplit. inversion Hl1; subst.
          destruct (IH l1 Hsplit) as [-> | Hb]; [assumption | now left |].
          right. now right. }
    split; [exact Hpos|].
    intros Hnone. destruct Hpos as [-> | Hb]; [reflexivity|].
    exfalso. apply (Hnone c' Hb). now apply includes_spec.
Qed.

Lemma color_is_substring_match_witness :
  favoriteColor (extractInformation "I am Bored") = Some "red" /\
  favoriteColor (extractInformation "a Blueberry pie") = Some "blue".
Proof.
  split.
  - apply (proj1 (color_is_substring_match "I am Bored")).
    exists "i am ", "". reflexivity.
  - destruct (proj2 (color_is_substring_match "a Blueberry pie") "blue" ["red"]
                ["green"; "yellow"; "purple"; "orange"; "pink"; "black"; "white"; "brown"]
                "a " "berry pie" eq_refl eq_refl) as (c' & Hc' & _ & _ & Hfirst).
    rewrite Hc'. f_equal. apply Hfirst.
    intros x [<- | []] Hx. apply includes_spec in Hx. vm_compute in Hx. discriminate.
Defined.

(** ** The turn handler *)

Lemma tempInfo_for_some (pref : string) : exists t, tempInfo_for pref = Some t.
Proof.
  unfold tempInfo_for. destruct (steakTemperatures !! toLowerCase pref); [eauto|].
  vm_compute. eauto.
Qed.

Ltac run_handler :=
  cbv beta iota zeta delta
    [handleTurn gather_try try_catch bind ret throw log getSession
     updateSession saveCustomerData generateResponse sendSteakInstructions
     messages_create sqlite of_sum getOrCreateSession].

Section Turn.

Variable env : Collaborators.
Variable req : Request.
Variable w : World.

Local Abbreviation failed e :=
  (Normal (Failed apology),
   mkWorld (db w) (console w ++ [console_error "Error processing call:" e])
           (sms_requests w)).

(** SQLite reports an error for the SELECT. *)
Lemma handleTurn_select_err (e : Exn) :
  sqlite_err env SelectSession = Some e ->
  handleTurn env req w = failed e.
Proof. intros H. run_handler. rewrite H. reflexivity. Qed.

(** There is no row for the call. *)
Lemma handleTurn_no_session :
  sqlite_err env SelectSession = None ->
  select_session (CallSid req) (db w) = None ->
  handleTurn env req w = failed TypeError.
Proof. intros H1 H2. run_handler. rewrite H1, H2. reflexivity. Qed.

Variable row : CallSessions.row.
Hypothesis Hselect : sqlite_err env SelectSession = None.
Hypothesis Hrow : select_session (CallSid req) (db w) = Some row.

(** The generation collaborator throws. *)
Lemma handleTurn_openai_err (e : Exn) :
  openai_create env (turn_messages row (speech_of req)) = inl e ->
  handleTurn env req w = failed e.
Proof.
  intros H. run_handler. rewrite Hselect, Hrow.
  unfold turn_messages, history_of, speech_of in H. cbv beta iota zeta.
  rewrite H. reflexivity.
Qed.

Variable aiResponse : string.
Hypothesis Hai :
  openai_create env (turn_messages row (speech_of req)) = inr aiResponse.

Local Abbreviation history' := (next_history row (speech_of req) aiResponse).
Local Abbreviation info := (extractInformation (fullConversation history')).
Local Abbreviation db' := (update_session (CallSid req) history' info (db w)).

Lemma handleTurn_update_err (e : Exn) :
  sqlite_err env UpdateSession = Some e ->
  handleTurn env req w = failed e.
Proof.
  intros H. run_handler. rewrite Hselect, Hrow.
  unfold turn_messages, history_of, speech_of in Hai. cbv beta iota zeta.
  rewrite Hai. cbv beta iota. rewrite H. reflexivity.
Qed.

Hypothesis Hupdate : sqlite_err env UpdateSession = None.

(** Some slot is still missing. *)
Lemma handleTurn_continue :
  truthy (name info) && truthy (favoriteColor info)
    && truthy (steakPreference info) = false ->
  handleTurn env req w =
    (Normal (Continue aiResponse), mkWorld db' (console w) (sms_requests w)).
Proof.
  intros H. run_handler. rewrite Hselect, Hrow.
  unfold turn_messages, history_of, speech_of in Hai. cbv beta iota zeta.
  rewrite Hai. cbv beta iota. rewrite Hupdate. cbv beta iota zeta.
  cbn [db console sms_requests].
  change (extractInformation _) with info. rewrite H. reflexivity.
Qed.

Hypothesis Hall :
  truthy (name info) && truthy (favoriteColor info)
    && truthy (steakPreference info) = true.

Lemma handleTurn_replace_err (e : Exn) :
  sqlite_err env ReplaceCustomer = Some e ->
  handleTurn env req w =
    (Normal (Failed apology),
     mkWorld db' (console w ++ [console_error "Error processing call:" e])
             (sms_requests w)).
Proof.
  intros H. run_handler. rewrite Hselect, Hrow.
  unfold turn_messages, history_of, speech_of in Hai. cbv beta iota zeta.
  rewrite Hai. cbv beta iota. rewrite Hupdate. cbv beta iota zeta.
  cbn [db console sms_requests].
  change (extractInformation _) with info. rewrite Hall, H. reflexivity.
Qed.

Hypothesis Hreplace : sqlite_err env ReplaceCustomer = None.

(** All three slots are filled: the record is saved, the text message is
    requested once, and whatever Twilio answers the turn is complete. *)
Lemma handleTurn_complete :
  exists pref tempInfo,
    steakPreference info = Some pref /\
    tempInfo_for pref = Some tempInfo /\
    let sms := steak_sms env (From req) info pref tempInfo in
    handleTurn env req w =
      (Normal (Complete (closing (name info)) info),
       mkWorld (replace_customer (From req) info db')
               (console w ++
                  [match twilio_create env sms with
                   | inl e => console_error "Error sending SMS:" e
                   | inr _ => console_log ("Sent steak instructions to " +:+ From req)
                   end])
               (sms_requests w ++ [sms])).
Proof.
  assert (Hp : exists pref, steakPreference info = Some pref).
  { destruct (steakPreference info); [eauto|].
    cbn [truthy] in Hall. rewrite !andb_false_r in Hall. discriminate. }
  destruct Hp as [pref Hpref].
  destruct (tempInfo_for_some pref) as [t Ht]. exists pref, t.
  split; [exact Hpref|]. split; [exact Ht|]. cbv zeta.
  run_handler. rewrite Hselect, Hrow.
  unfold turn_messages, history_of, speech_of in Hai. cbv beta iota zeta.
  rewrite Hai. cbv beta iota. rewrite Hupdate. cbv beta iota zeta.
  cbn [db console sms_requests].
  change (extractInformation _) with info. rewrite Hall, Hreplace.
  cbv beta iota zeta. rewrite Hpref, Ht. cbn [db console sms_requests].
  destruct (twilio_create env _); reflexivity.
Qed.

End Turn.

(** ** Claims about one turn *)

(** C2.  When the generation collaborator throws, the turn is [Failed]
    with the retry prompt and a new [Gather], and the database is as it was:
    the stored partial record and the stored history of every call are
    unchanged (the user's utterance was appended to a local array only). *)
Theorem generation_failure_keeps_session
    (env : Collaborators) (req : Request) (w : World) (e : Exn) :
  (forall row,
     select_session (CallSid req) (db w) = Some row ->
     openai_create env (turn_messages row (speech_of req)) = inl e) ->
  let w' := snd (handleTurn env req w) in
  fst (handleTurn env req w) = Normal (Failed apology) /\
  fst (gather env req w) = Normal [Say "alice" apology; gather_verb] /\
  db w' = db w /\
  (forall callSid, partialRecord w' callSid = partialRecord w callSid /\
                   storedHistory w' callSid = storedHistory w callSid).
Proof.
  intros Hgen.
  assert (H : exists e', handleTurn env req w =
            (Normal (Failed apology),
             mkWorld (db w) (console w ++ [console_error "Error processing call:" e'])
                     (sms_requests w))).
  { destruct (sqlite_err env SelectSession) as [e'|] eqn:Hs.
    - exists e'. now apply handleTurn_select_err.
    - destruct (select_session (CallSid req) (db w)) as [row|] eqn:Hr.
      + exists e. eapply handleTurn_openai_err; eauto.
      + exists TypeError. now apply handleTurn_no_session. }
  destruct H as [e' H]. cbv zeta. unfold gather, bind, ret.
  rewrite H. cbn [fst snd db twiml_of]. repeat split.
Qed.

Lemma generation_failure_keeps_session_witness :
  fst (handleTurn openai_down (req_turn "I like blue") after_turn1)
    = Normal (Failed apology) /\
  partialRecord (snd (handleTurn openai_down (req_turn "I like blue") after_turn1)) "CA1"
    = mkInfo (Some "Sam") None None /\
  length (storedHistory
            (snd (handleTurn openai_down (req_turn "I like blue") after_turn1)) "CA1")
    = 2.
Proof.
  destruct (generation_failure_keeps_session openai_down (req_turn "I like blue")
              after_turn1 (Error "503") (fun _ _ => eq_refl))
    as (H1 & _ & _ & H4).
  destruct (H4 "CA1") as [H5 H6].
  split; [exact H1|]. split.
  - rewrite H5. vm_compute. reflexivity.
  - rewrite H6. vm_compute. reflexivity.
Defined.

Lemma truthy_all_present (conversation : string) :
  let i := extractInformation conversation in
  truthy (name i) && truthy (favoriteColor i) && truthy (steakPreference i) = true
  <-> all_present i.
Proof.
  cbv zeta. destruct (extracted_truthy conversation) as (Hn & Hc & Hp).
  unfold all_present. rewrite !andb_true_iff, Hn, Hc, Hp. tauto.
Qed.

(** C3.  In a turn whose session exists and whose collaborators answer,
    the outcome is [Complete] exactly when the record extracted from the
    whole history has its three fields; then the customer row of the
    caller's number holds the record, one text message to the caller has
    been requested, and the closing prompt names the caller; otherwise the
    outcome is [Continue] with the generated text. *)
Theorem complete_iff_all_present
    (env : Collaborators) (req : Request) (w : World)
    (row : CallSessions.row) (aiResponse : string) :
  sqlite_err env = no_sqlite_err ->
  select_session (CallSid req) (db w) = Some row ->
  openai_create env (turn_messages row (speech_of req)) = inr aiResponse ->
  let info :=
    extractInformation (fullConversation (next_history row (speech_of req) aiResponse)) in
  let w' := snd (handleTurn env req w) in
  ((exists prompt record, fst (handleTurn env req w) = Normal (Complete prompt record))
   <-> all_present info) /\
  (all_present info ->
   exists n id sms,
     name info = Some n /\
     fst (handleTurn env req w) =
       Normal (Complete ("Perfect! Thanks " +:+ n +:+
         ". I've got your information and you'll receive a text with your personalized steak cooking instructions shortly. Have a great day!")
         info) /\
     customers (db w') =
       <[From req := Customers.mkRow id (name info) (favoriteColor info)
                                     (steakPreference info)]> (customers (db w)) /\
     sms_requests w' = sms_requests w ++ [sms] /\ to sms = From req) /\
  (~ all_present info ->
   fst (handleTurn env req w) = Normal (Continue aiResponse) /\
   customers (db w') = customers (db w) /\
   sms_requests w' = sms_requests w).
Proof.
  intros Herr Hrow Hai. cbv zeta.
  set (info := extractInformation _).
  assert (Hs : forall st, sqlite_err env st = None) by (intros st; now rewrite Herr).
  destruct (truthy (name info) && truthy (favoriteColor info)
            && truthy (steakPreference info)) eqn:Hall.
  - pose proof (proj1 (truthy_all_present _) Hall) as Hp. fold info in Hp.
    destruct (handleTurn_complete env req w row (Hs _) Hrow aiResponse Hai (Hs _)
                Hall (Hs _)) as (pref & t & Hpref & Ht & Hrun).
    cbv zeta in Hrun. fold info in Hrun. rewrite Hrun. cbn [fst snd db sms_requests].
    split; [split; [intros _; exact Hp | intros _; eauto]|].
    split; [|intros Hn; now destruct Hn].
    intros _. destruct Hp as ([n Hn] & _ & _).
    exists n, (S (customers_seq (db w))), (steak_sms env (From req) info pref t).
    rewrite Hn. repeat split.
    unfold replace_customer; cbn [customers]. now rewrite Hn.
  - assert (Hp : ~ all_present info).
    { intros Hp. apply truthy_all_present in Hp. fold info in Hp. congruence. }
    rewrite (handleTurn_continue env req w row (Hs _) Hrow aiResponse Hai (Hs _) Hall).
    cbn [fst snd db sms_requests]. split; [|split].
    + split; [intros (p & r & [=]) | intros H; now destruct Hp].
    + intros H; now destruct Hp.
    + intros _. repeat split.
Qed.

Lemma complete_iff_all_present_witness :
  exists prompt record,
    fst (handleTurn (all_up "Thanks!") (req_turn "Medium well please") after_turn2)
    = Normal (Complete prompt record).
Proof.
  edestruct (complete_iff_all_present (all_up "Thanks!")
               (req_turn "Medium well please") after_turn2) as (H & _).
  - reflexivity.
  - vm_compute. reflexivity.
  - reflexivity.
  - apply H. vm_compute. repeat split; eexists; reflexivity.
Defined.

(** C9.  In a turn that completes, a failure of the text message is
    caught inside [sendSteakInstructions]: it is written to the console,
    the message is requested once and not again, the customer row is
    saved, and the outcome and the database are the ones of a turn in which
    the message was delivered. *)
Theorem sms_failure_is_swallowed
    (env : Collaborators) (req : Request) (w : World)
    (row : CallSessions.row) (aiResponse : string) (e : Exn) :
  sqlite_err env = no_sqlite_err ->
  select_session (CallSid req) (db w) = Some row ->
  openai_create env (turn_messages row (speech_of req)) = inr aiResponse ->
  let info :=
    extractInformation (fullConversation (next_history row (speech_of req) aiResponse)) in
  all_present info ->
  (forall sms, twilio_create env sms = inl e) ->
  let w' := snd (handleTurn env req w) in
  let delivered := handleTurn (with_twilio env (fun _ => inr tt)) req w in
  fst (handleTurn env req w) = Normal (Complete (closing (name info)) info) /\
  fst (handleTurn env req w) = fst delivered /\
  db w' = db (snd delivered) /\
  (exists id, customers (db w') !! From req =
     Some (Customers.mkRow id (name info) (favoriteColor info) (steakPreference info))) /\
  console w' = console w ++ [console_error "Error sending SMS:" e] /\
  (exists sms, sms_requests w' = sms_requests w ++ [sms]).
Proof.
  intros Herr Hrow Hai. cbv zeta. set (info := extractInformation _).
  intros Hp Htw.
  assert (Hs : forall st, sqlite_err env st = None) by (intros st; now rewrite Herr).
  assert (Hall : truthy (name info) && truthy (favoriteColor info)
                 && truthy (steakPreference info) = true)
    by now apply truthy_all_present.
  destruct (handleTurn_complete env req w row (Hs _) Hrow aiResponse Hai (Hs _)
              Hall (Hs _)) as (pref & t & Hpref & Ht & Hrun).
  destruct (handleTurn_complete (with_twilio env (fun _ => inr tt)) req w row
              (Hs _) Hrow aiResponse Hai (Hs _) Hall (Hs _))
    as (pref' & t' & Hpref' & Ht' & Hrun').
  cbv zeta in Hrun, Hrun'. fold info in Hrun, Hrun'.
  rewrite Hrun, Hrun', Htw. cbn [fst snd db console sms_requests].
  repeat split.
  - exists (S (customers_seq (db w))).
    unfold replace_customer; cbn [customers]. apply lookup_insert_eq.
  - eauto.
Qed.

Lemma sms_failure_is_swallowed_witness :
  fst (handleTurn (twilio_down "Thanks!") (req_turn "Medium well please") after_turn2)
  = fst (handleTurn (all_up "Thanks!") (req_turn "Medium well please") after_turn2).
Proof.
  edestruct (sms_failure_is_swallowed (twilio_down "Thanks!")
               (req_turn "Medium well please") after_turn2) as (_ & H & _).
  - reflexivity.
  - vm_compute. reflexivity.
  - reflexivity.
  - vm_compute. repeat split; eexists; reflexivity.
  - intros sms. reflexivity.
  - exact H.
Defined.

(** ** Claims about the session store *)

(** C4, as stated, fails: with no row for the call, [getSession] resolves
    (with [undefined]); nothing is thrown. *)
Lemma getSession_not_found_counterexample :
  select_session "CA404" (db after_turn1) = None /\
  ~ (exists e, fst (getSession (all_up "") "CA404" after_turn1) = Throw e).
Proof.
  split; [vm_compute; reflexivity|].
  intros [e H]. vm_compute in H. discriminate.
Qed.

(** C4, amended.  When no session exists for the call, [getSession]
    resolves with no row and leaves the world as it is; it rejects exactly
    when SQLite reports an error for the SELECT.  A turn for such a call
    fails on reading the missing row and gives [Failed] with the database
    unchanged. *)
Theorem getSession_without_row
    (env : Collaborators) (callSid : string) (w : World) :
  select_session callSid (db w) = None ->
  (sqlite_err env SelectSession = None ->
   getSession env callSid w = (Normal None, w)) /\
  (forall e, sqlite_err env SelectSession = Some e <->
             fst (getSession env callSid w) = Throw e) /\
  (forall req, CallSid req = callSid ->
     fst (handleTurn env req w) = Normal (Failed apology) /\
     db (snd (handleTurn env req w)) = db w).
Proof.
  intros Hnone. split; [|split].
  - intros Hs. unfold getSession, sqlite. rewrite Hs, Hnone. now destruct w.
  - intros e. unfold getSession, sqlite.
    destruct (sqlite_err env SelectSession); cbn [fst].
    + split; congruence.
    + split; [discriminate | rewrite Hnone; discriminate].
  - intros req <-. destruct (sqlite_err env SelectSession) as [e|] eqn:Hs.
    + rewrite (handleTurn_select_err env req w e Hs). now split.
    + rewrite (handleTurn_no_session env req w Hs Hnone). now split.
Qed.

Lemma getSession_without_row_witness :
  getSession (all_up "") "CA404" after_turn1 = (Normal None, after_turn1).
Proof.
  refine (proj1 (getSession_without_row (all_up "") "CA404" after_turn1 _) _).
  - vm_compute. reflexivity.
  - reflexivity.
Defined.

(** ** The stored partial record over the turns of a call *)

Lemma info_le_refl (i : Info) : info_le i i.
Proof. unfold info_le. tauto. Qed.

Lemma info_le_trans (i j k : Info) : info_le i j -> info_le j k -> info_le i k.
Proof. unfold info_le. tauto. Qed.

Lemma info_le_empty (i : Info) : info_le empty_info i.
Proof. unfold info_le, is_set; cbn. repeat split; intros [s H]; discriminate. Qed.

(** Joining a longer array extends the text. *)
Lemma join_app (sep : string) (l l' : list string) :
  exists ext, join sep (l ++ l') = join sep l +:+ ext.
Proof.
  induction l as [|x l IH].
  - exists (join sep l'). reflexivity.
  - destruct l as [|y l].
    + destruct l' as [|z l'].
      * exists "". cbn. now rewrite append_empty_r.
      * exists (sep +:+ join sep (z :: l')). reflexivity.
    + destruct IH as [ext IH]. exists ext.
      change (join sep ((x :: y :: l) ++ l'))
        with (x +:+ sep +:+ join sep ((y :: l) ++ l')).
      rewrite IH.
      change (join sep (x :: y :: l)) with (x +:+ sep +:+ join sep (y :: l)).
      now rewrite !append_assoc.
Qed.

Lemma fullConversation_app (h h' : list Message) :
  exists ext, fullConversation (h ++ h') = fullConversation h +:+ ext.
Proof. unfold fullConversation. rewrite map_app. apply join_app. Qed.

(** The record a successful turn stores has every field the record of the
    shorter history had. *)
Lemma extract_next_history (r : CallSessions.row) (speech ai : string) :
  info_le (extractInformation (fullConversation (history_of r)))
          (extractInformation (fullConversation (next_history r speech ai))).
Proof.
  unfold next_history. rewrite <- app_assoc.
  destruct (fullConversation_app (history_of r)
              ([mkMessage user speech] ++ [mkMessage assistant ai])) as [ext ->].
  apply extractInformation_mono.
Qed.

Lemma select_session_in (callSid : string) (d : Db) (r : CallSessions.row) :
  select_session callSid d = Some r ->
  In r (call_sessions d) /\ CallSessions.call_sid r = callSid.
Proof.
  unfold select_session. intros H. apply find_some in H as [Hin Heq].
  split; [assumption | now apply String.eqb_eq].
Qed.

Lemma select_session_update_same
    (callSid : string) (h : list Message) (i : Info) (d : Db) (r : CallSessions.row) :
  select_session callSid d = Some r ->
  select_session callSid (update_session callSid h i d) =
    Some (CallSessions.mkRow (CallSessions.id r) (CallSessions.call_sid r)
                             (CallSessions.phone_number r) (Some h) i).
Proof.
  unfold select_session, update_session; cbn [call_sessions].
  induction (call_sessions d) as [|x l IH]; cbn [List.find map]; [discriminate|].
  destruct (String.eqb (CallSessions.call_sid x) callSid) eqn:E.
  - intros [= ->]. cbn [CallSessions.call_sid]. now rewrite E.
  - rewrite E. exact IH.
Qed.

Lemma select_session_update_none
    (callSid sid : string) (h : list Message) (i : Info) (d : Db) :
  select_session sid d = None ->
  select_session sid (update_session callSid h i d) = None.
Proof.
  unfold select_session, update_session; cbn [call_sessions].
  induction (call_sessions d) as [|x l IH]; cbn [List.find map]; [reflexivity|].
  destruct (String.eqb (CallSessions.call_sid x) sid) eqn:E; [discriminate|].
  intros H. destruct (String.eqb (CallSessions.call_sid x) callSid);
    cbn [CallSessions.call_sid]; rewrite E; now apply IH.
Qed.

Lemma select_session_update_other
    (callSid sid : string) (h : list Message) (i : Info) (d : Db) :
  sid <> callSid ->
  select_session sid (update_session callSid h i d) = select_session sid d.
Proof.
  intros Hne. unfold select_session, update_session; cbn [call_sessions].
  induction (call_sessions d) as [|x l IH]; cbn [List.find map]; [reflexivity|].
  destruct (String.eqb (CallSessions.call_sid x) callSid) eqn:E.
  - apply String.eqb_eq in E. cbn [CallSessions.call_sid].
    assert (E' : String.eqb (CallSessions.call_sid x) sid = false)
      by (apply String.eqb_neq; congruence).
    now rewrite E'.
  - destruct (String.eqb (CallSessions.call_sid x) sid); [reflexivity | exact IH].
Qed.

Lemma update_session_consistent
    (callSid : string) (h : list Message) (d : Db) :
  Forall row_consistent (call_sessions d) ->
  Forall row_consistent
    (call_sessions
       (update_session callSid h (extractInformation (fullConversation h)) d)).
Proof.
  unfold update_session; cbn [call_sessions]. intros H.
  induction H as [|x l Hx Hl IH]; cbn [map]; constructor; [|exact IH].
  destruct (String.eqb (CallSessions.call_sid x) callSid); [|exact Hx].
  unfold row_consistent, history_of; cbn. apply info_le_refl.
Qed.

(** What a turn does to the table of sessions: nothing, or the UPDATE with
    the extended history and the record extracted from it. *)
Lemma handleTurn_sessions (env : Collaborators) (req : Request) (w : World) :
  call_sessions (db (snd (handleTurn env req w))) = call_sessions (db w) \/
  exists row ai,
    select_session (CallSid req) (db w) = Some row /\
    call_sessions (db (snd (handleTurn env req w))) =
      call_sessions
        (update_session (CallSid req) (next_history row (speech_of req) ai)
           (extractInformation (fullConversation (next_history row (speech_of req) ai)))
           (db w)).
Proof.
  destruct (sqlite_err env SelectSession) as [e|] eqn:Hs;
    [left; now rewrite (handleTurn_select_err env req w e Hs)|].
  destruct (select_session (CallSid req) (db w)) as [row|] eqn:Hr;
    [|left; now rewrite (handleTurn_no_session env req w Hs Hr)].
  destruct (openai_create env (turn_messages row (speech_of req))) as [e|ai] eqn:Hai;
    [left; now rewrite (handleTurn_openai_err env req w row Hs Hr e Hai)|].
  destruct (sqlite_err env UpdateSession) as [e|] eqn:Hu;
    [left; now rewrite (handleTurn_update_err env req w row Hs Hr ai Hai e Hu)|].
  right. exists row, ai. split; [reflexivity|].
  set (info := extractInformation _).
  destruct (truthy (name info) && truthy (favoriteColor info)
            && truthy (steakPreference info)) eqn:Hall;
    [|now rewrite (handleTurn_continue env req w row Hs Hr ai Hai Hu Hall)].
  destruct (sqlite_err env ReplaceCustomer) as [e|] eqn:Hc;
    [now rewrite (handleTurn_replace_err env req w row Hs Hr ai Hai Hu Hall e Hc)|].
  destruct (handleTurn_complete env req w row Hs Hr ai Hai Hu Hall Hc)
    as (pref & t & _ & _ & Hrun).
  cbv zeta in Hrun. now rewrite Hrun.
Qed.

(** A new world and the greeting of a call are consistent. *)
Lemma empty_world_consistent : consistent empty_world.
Proof. constructor. Qed.

Lemma voice_consistent (env : Collaborators) (req : Request) (w : World) :
  consistent w -> consistent (snd (voice env req w)).
Proof.
  unfold consistent, voice. run_handler. intros H.
  destruct (sqlite_err env SelectSession); [exact H|].
  cbv beta iota zeta. cbn [db].
  destruct (select_session (CallSid req) (db w)); [exact H|].
  destruct (sqlite_err env InsertSession); [exact H|].
  cbn [insert_session snd db call_sessions]. apply Forall_app. split; [exact H|].
  constructor; [|constructor]. apply info_le_empty.
Qed.

(** One turn, successful or not, on a consistent table. *)
Lemma handleTurn_monotone (env : Collaborators) (req : Request) (w : World) :
  consistent w ->
  let w' := snd (handleTurn env req w) in
  consistent w' /\
  (forall callSid,
     info_le (partialRecord w callSid) (partialRecord w' callSid) /\
     exists added, storedHistory w' callSid = storedHistory w callSid ++ added).
Proof.
  intros Hc. cbv zeta. split.
  - unfold consistent.
    destruct (handleTurn_sessions env req w) as [-> | (row & ai & _ & ->)];
      [exact Hc | now apply update_session_consistent].
  - intros callSid. unfold partialRecord, storedHistory, select_session.
    destruct (handleTurn_sessions env req w) as [-> | (row & ai & Hrow & ->)].
    + split; [apply info_le_refl | exists []; now rewrite app_nil_r].
    + fold (select_session callSid (db w)).
      match goal with
      | |- context [List.find _ (call_sessions ?d)] =>
          fold (select_session callSid d)
      end.
      destruct (String.eqb_spec callSid (CallSid req)) as [-> | Hne].
      * rewrite (select_session_update_same _ _ _ _ _ Hrow), Hrow.
        cbn [CallSessions.collected_data history_of CallSessions.conversation_state].
        split.
        -- apply select_session_in in Hrow as [Hin _].
           unfold consistent in Hc. rewrite Forall_forall in Hc.
           apply list_elem_of_In in Hin. specialize (Hc row Hin).
           eapply info_le_trans; [exact Hc | apply extract_next_history].
        -- unfold next_history. rewrite <- app_assoc. eauto.
      * rewrite (select_session_update_other _ _ _ _ _ Hne).
        split; [apply info_le_refl | exists []; now rewrite app_nil_r].
Qed.

(** [/voice] leaves the rows there are and adds at most a new, empty one
    behind them. *)
Lemma voice_sessions (env : Collaborators) (req : Request) (w : World) :
  call_sessions (db (snd (voice env req w))) = call_sessions (db w) \/
  select_session (CallSid req) (db w) = None /\
  call_sessions (db (snd (voice env req w))) =
    call_sessions (db w) ++
      [CallSessions.mkRow (S (call_sessions_seq (db w))) (CallSid req) (From req)
                          (Some []) empty_info].
Proof.
  unfold voice. run_handler.
  destruct (sqlite_err env SelectSession); [now left|].
  cbv beta iota zeta. cbn [db].
  destruct (select_session (CallSid req) (db w)); [now left|].
  destruct (sqlite_err env InsertSession); [now left|].
  right. split; reflexivity.
Qed.

Lemma find_app_l {A} (f : A -> bool) (l l' : list A) (x : A) :
  List.find f l = Some x -> List.find f (l ++ l') = Some x.
Proof.
  induction l as [|y l IH]; cbn [List.find app]; [discriminate|].
  destruct (f y); [trivial | exact IH].
Qed.

Lemma voice_monotone (env : Collaborators) (req : Request) (w : World) :
  consistent w ->
  let w' := snd (voice env req w) in
  consistent w' /\
  (forall callSid,
     info_le (partialRecord w callSid) (partialRecord w' callSid) /\
     exists added, storedHistory w' callSid = storedHistory w callSid ++ added).
Proof.
  intros Hc. cbv zeta. split; [now apply voice_consistent|].
  intros callSid. unfold partialRecord, storedHistory, select_session.
  destruct (voice_sessions env req w) as [-> | [Hnone ->]].
  - split; [apply info_le_refl | exists []; now rewrite app_nil_r].
  - fold (select_session callSid (db w)).
    destruct (select_session callSid (db w)) as [r|] eqn:Hr.
    + unfold select_session in Hr.
      rewrite (find_app_l _ _ _ _ Hr).
      split; [apply info_le_refl | exists []; now rewrite app_nil_r].
    + split; [apply info_le_empty | eauto].
Qed.

Lemma gather_world (env : Collaborators) (req : Request) (w : World) :
  snd (gather env req w) = snd (handleTurn env req w).
Proof.
  unfold gather, bind, ret. now destruct (handleTurn env req w) as [[o|e] w'].
Qed.

Lemma deliver_monotone (h : Webhook) (w : World) :
  consistent w ->
  consistent (deliver w h) /\
  (forall callSid,
     info_le (partialRecord w callSid) (partialRecord (deliver w h) callSid) /\
     exists added,
       storedHistory (deliver w h) callSid = storedHistory w callSid ++ added).
Proof.
  destruct h as [env req | env req]; cbn [deliver].
  - apply voice_monotone.
  - rewrite gather_world. apply handleTurn_monotone.
Qed.

Lemma run_webhooks_monotone (calls : list Webhook) :
  forall w,
    consistent w ->
    consistent (run_webhooks calls w) /\
    (forall callSid,
       info_le (partialRecord w callSid) (partialRecord (run_webhooks calls w) callSid) /\
       exists added,
         storedHistory (run_webhooks calls w) callSid = storedHistory w callSid ++ added).
Proof.
  induction calls as [|h calls IH]; intros w Hc.
  - split; [exact Hc|]. intros callSid.
    split; [apply info_le_refl | exists []; now rewrite app_nil_r].
  - destruct (deliver_monotone h w Hc) as [Hc1 H1].
    destruct (IH _ Hc1) as [Hc2 H2]. split; [exact Hc2|].
    intros callSid. destruct (H1 callSid) as [Hle1 [a1 Ha1]].
    destruct (H2 callSid) as [Hle2 [a2 Ha2]]. split.
    + eapply info_le_trans; [exact Hle1 | exact Hle2].
    + exists (a1 ++ a2). unfold run_webhooks in *. cbn [fold_left].
      now rewrite Ha2, Ha1, app_assoc.
Qed.

(** C7.  Whatever webhooks the server has handled since it started with an
    empty database, and whatever webhooks follow (turns of this call that
    succeed or fail, turns of other calls, greetings): a field that is set
    in the stored partial record of a call stays set (its value may be
    replaced), whether or not the later utterances mention the slot, and the
    stored history of the call is only extended.  The extractor itself never
    drops a field when the transcript is extended. *)
Theorem partial_record_monotone (calls later : list Webhook) (callSid : string) :
  let w := run_webhooks calls empty_world in
  let w' := run_webhooks later w in
  info_le (partialRecord w callSid) (partialRecord w' callSid) /\
  (exists added, storedHistory w' callSid = storedHistory w callSid ++ added) /\
  (forall conversation ext,
     info_le (extractInformation conversation)
             (extractInformation (conversation +:+ ext))).
Proof.
  cbv zeta.
  destruct (run_webhooks_monotone calls empty_world empty_world_consistent)
    as [Hc _].
  destruct (run_webhooks_monotone later _ Hc) as [_ H].
  destruct (H callSid) as [Hle Hadd].
  split; [exact Hle|]. split; [exact Hadd | apply extractInformation_mono].
Qed.

(** ** [getOrCreateSession], alone and overlapping *)

Lemma select_session_head (callSid : string) (d : Db) :
  select_session callSid d = head (sessions_of callSid d).
Proof.
  unfold select_session, sessions_of.
  induction (call_sessions d) as [|x l IH]; cbn [List.find List.filter]; [reflexivity|].
  destruct (String.eqb (CallSessions.call_sid x) callSid); [reflexivity | exact IH].
Qed.

Lemma sessions_of_insert (callSid phoneNumber : string) (d : Db) :
  sessions_of callSid (snd (insert_session callSid phoneNumber d)) =
  sessions_of callSid d ++
    [CallSessions.mkRow (S (call_sessions_seq d)) callSid phoneNumber (Some [])
                        empty_info].
Proof.
  unfold sessions_of, insert_session; cbn [snd call_sessions].
  rewrite List.filter_app. cbn [List.filter CallSessions.call_sid].
  now rewrite String.eqb_refl.
Qed.

(** The promise of [getOrCreateSession] is the two callbacks run one after
    the other. *)
Lemma getOrCreateSession_callbacks
    (env : Collaborators) (callSid phoneNumber : string) (w : World) :
  let '(p, w1) := callback env callSid phoneNumber AwaitSelect w in
  let '(p', w2) := callback env callSid phoneNumber p w1 in
  p' = Settled (fst (getOrCreateSession env callSid phoneNumber w)) /\
  w2 = snd (getOrCreateSession env callSid phoneNumber w).
Proof.
  unfold callback. run_handler.
  destruct (sqlite_err env SelectSession); [now split|].
  cbv beta iota zeta. destruct (select_session callSid (db w)); [now split|].
  cbn [db console sms_requests].
  destruct (sqlite_err env InsertSession); [now split|].
  destruct (insert_session callSid phoneNumber (db w)). now split.
Qed.

Section Overlap.

Variable env : Collaborators.
Variable callSid : string.
Hypothesis Herr : sqlite_err env = no_sqlite_err.

Local Abbreviation count w := (session_count callSid w).

(** One callback: a SELECT that finds a row settles, one that finds none
    goes on to the INSERT; the INSERT adds a row and settles. *)
Lemma callback_cases (phoneNumber : string) (p : Pending) (w : World) :
  let '(p', w') := callback env callSid phoneNumber p w in
  match p with
  | AwaitSelect =>
      w' = w /\
      ((exists r, p' = Settled (Normal r) /\ CallSessions.call_sid r = callSid /\
                  1 <= count w) \/
       p' = AwaitInsert)
  | AwaitInsert =>
      count w' = S (count w) /\
      exists r, p' = Settled (Normal r) /\ CallSessions.call_sid r = callSid
  | Settled _ => p' = p /\ w' = w
  end.
Proof.
  unfold callback, sqlite. rewrite Herr. unfold no_sqlite_err.
  destruct p as [| |r]; [| |now split].
  - destruct (select_session callSid (db w)) as [r|] eqn:Hr.
    + split; [now destruct w|]. left. exists r. split; [reflexivity|].
      split; [now apply select_session_in in Hr|].
      unfold count. rewrite select_session_head in Hr.
      destruct (sessions_of callSid (db w)); [discriminate | cbn; lia].
    + split; [now destruct w | now right].
  - pose proof (sessions_of_insert callSid phoneNumber (db w)) as Hi.
    destruct (insert_session callSid phoneNumber (db w)) as [lastID d] eqn:Hd.
    cbn [snd] in Hi. unfold count; cbn [db]. rewrite Hi, length_app. cbn [length].
    split; [lia|]. eexists. split; reflexivity.
Qed.

Local Abbreviation inv := (overlap_inv callSid).

Lemma interleave_inv (phone1 phone2 : string) (c0 : nat) (schedule : list bool) :
  forall p1 p2 w,
    inv c0 p1 p2 w ->
    let '(p1', p2', w') := interleave env callSid phone1 phone2 schedule p1 p2 w in
    inv c0 p1' p2' w'.
Proof.
  induction schedule as [|b schedule IH]; intros p1 p2 w Hinv; [exact Hinv|].
  destruct b; cbn [interleave].
  - pose proof (callback_cases phone1 p1 w) as Hcb.
    destruct (callback env callSid phone1 p1 w) as [p1' w'].
    apply IH. unfold inv in *. destruct Hinv as (H1 & H2 & H3 & H4 & H5).
    destruct p1 as [| |r].
    + destruct Hcb as [-> [(r & -> & Hr & Hc) | ->]]; cbn in *; repeat split; auto; lia.
    + destruct Hcb as [Hc (r & -> & Hr)]; cbn in *; repeat split; auto; lia.
    + destruct Hcb as [-> ->]. repeat split; auto.
  - pose proof (callback_cases phone2 p2 w) as Hcb.
    destruct (callback env callSid phone2 p2 w) as [p2' w'].
    apply IH. unfold inv in *. destruct Hinv as (H1 & H2 & H3 & H4 & H5).
    destruct p2 as [| |r].
    + destruct Hcb as [-> [(r & -> & Hr & Hc) | ->]]; cbn in *; repeat split; auto; lia.
    + destruct Hcb as [Hc (r & -> & Hr)]; cbn in *; repeat split; auto; lia.
    + destruct Hcb as [-> ->]. repeat split; auto.
Qed.

(** Whatever the schedule, two invocations that have both settled have
    both resolved with a row of the call, and have added one or two
    rows. *)
Lemma interleave_settled
    (phone1 phone2 : string) (schedule : list bool) (w w' : World)
    (r1 r2 : Completion CallSessions.row) :
  sessions_of callSid (db w) = [] ->
  interleave env callSid phone1 phone2 schedule AwaitSelect AwaitSelect w
    = (Settled r1, Settled r2, w') ->
  (exists row1 row2,
     r1 = Normal row1 /\ r2 = Normal row2 /\
     CallSessions.call_sid row1 = callSid /\ CallSessions.call_sid row2 = callSid) /\
  1 <= length (sessions_of callSid (db w')) <= 2.
Proof.
  intros Hnone Hrun.
  pose proof (interleave_inv phone1 phone2 0 schedule AwaitSelect AwaitSelect w) as H.
  rewrite Hrun in H.
  destruct H as (H1 & H2 & H3 & H4 & H5).
  { unfold inv, count. rewrite Hnone. cbn. repeat split; lia. }
  cbn in H1, H2, H4, H5. fold (count w').
  destruct r1 as [row1|]; [|contradiction]. destruct r2 as [row2|]; [|contradiction].
  split; [now exists row1, row2 | lia].
Qed.

(** One invocation after the other: the second finds the row the first
    inserted. *)
Lemma getOrCreateSession_twice (phone1 phone2 : string) (w : World) :
  sessions_of callSid (db w) = [] ->
  let first := getOrCreateSession env callSid phone1 w in
  let second := getOrCreateSession env callSid phone2 (snd first) in
  exists row,
    fst first = Normal row /\ fst second = Normal row /\
    CallSessions.call_sid row = callSid /\
    sessions_of callSid (db (snd second)) = [row].
Proof.
  intros Hnone. cbv zeta.
  assert (Hsel : select_session callSid (db w) = None)
    by now rewrite select_session_head, Hnone.
  assert (Hfirst : getOrCreateSession env callSid phone1 w =
            (Normal (CallSessions.mkRow (S (call_sessions_seq (db w))) callSid phone1
                                        (Some []) empty_info),
             mkWorld (snd (insert_session callSid phone1 (db w)))
                     (console w) (sms_requests w))).
  { run_handler. rewrite Herr. unfold no_sqlite_err. cbv beta iota zeta.
    rewrite Hsel. reflexivity. }
  rewrite Hfirst. cbn [fst snd].
  pose proof (sessions_of_insert callSid phone1 (db w)) as Hi. rewrite Hnone in Hi.
  cbn [app] in Hi.
  eexists. split; [reflexivity|].
  run_handler. rewrite Herr. unfold no_sqlite_err. cbv beta iota zeta.
  cbn [db console sms_requests]. rewrite select_session_head, Hi. cbn [head fst snd db].
  repeat split. exact Hi.
Qed.

End Overlap.

(** C8, as stated, fails: the SELECT of the second invocation can run
    before the INSERT of the first, and then both insert. *)
Lemma getOrCreate_race_counterexample :
  exists row1 row2 w',
    interleave (all_up "") "CA1" "+15550123" "+15550123"
               [true; false; true; false] AwaitSelect AwaitSelect empty_world
      = (Settled (Normal row1), Settled (Normal row2), w') /\
    sessions_of "CA1" (db empty_world) = [] /\
    length (sessions_of "CA1" (db w')) = 2.
Proof.
  do 3 eexists. split; [vm_compute; reflexivity|]. split; reflexivity.
Qed.

(** C8, amended.  When no session exists for the call and SQLite reports
    no error: two invocations of [getOrCreateSession] for the same call, the
    second started after the first has settled, leave exactly one row of
    that call, and both resolve with that row; two overlapping invocations,
    under every schedule of their statements, both resolve with a row of
    that call, and leave one or two rows. *)
Theorem getOrCreate_twice
    (env : Collaborators) (callSid phone1 phone2 : string) (w : World) :
  sqlite_err env = no_sqlite_err ->
  sessions_of callSid (db w) = [] ->
  (let first := getOrCreateSession env callSid phone1 w in
   let second := getOrCreateSession env callSid phone2 (snd first) in
   exists row,
     fst first = Normal row /\ fst second = Normal row /\
     CallSessions.call_sid row = callSid /\
     sessions_of callSid (db (snd second)) = [row]) /\
  (forall schedule r1 r2 w',
     interleave env callSid phone1 phone2 schedule AwaitSelect AwaitSelect w
       = (Settled r1, Settled r2, w') ->
     (exists row1 row2,
        r1 = Normal row1 /\ r2 = Normal row2 /\
        CallSessions.call_sid row1 = callSid /\ CallSessions.call_sid row2 = callSid) /\
     1 <= length (sessions_of callSid (db w')) <= 2).
Proof.
  intros Herr Hnone. split.
  - now apply getOrCreateSession_twice.
  - intros schedule r1 r2 w' Hrun. eapply interleave_settled; eauto.
Qed.

Lemma getOrCreate_twice_witness :
  exists row,
    fst (getOrCreateSession (all_up "") "CA1" "+15550123" empty_world) = Normal row /\
    sessions_of "CA1"
      (db (snd (getOrCreateSession (all_up "") "CA1" "+15550123"
                  (snd (getOrCreateSession (all_up "") "CA1" "+15550123" empty_world)))))
    = [row].
Proof.
  destruct (proj1 (getOrCreate_twice (all_up "") "CA1" "+15550123" "+15550123"
                     empty_world eq_refl eq_refl))
    as (row & H1 & _ & _ & H2).
  exists row. split; [exact H1 | exact H2].
Defined.

(** ** The scenarios of the specification, run on the model *)

Example extract_empty : extractInformation "" = empty_info.
Proof. reflexivity. Qed.

Example extract_name_keeps_case :
  extractInformation "MY NAME IS Ana" = mkInfo (Some "Ana") None None.
Proof. vm_compute. reflexivity. Qed.

Example extract_first_pattern_first :
  name (extractInformation "this is Bob, but my name is Sam") = Some "Sam".
Proof. vm_compute. reflexivity. Qed.

Example extract_medium_well :
  steakPreference (extractInformation "Medium well please") = Some "medium well".
Proof. vm_compute. reflexivity. Qed.

Example turn1_continue :
  fst (handleTurn (all_up "Nice to meet you, Sam! What is your favorite color?")
                  (req_turn "Hi, my name is Sam") after_voice)
    = Normal (Continue "Nice to meet you, Sam! What is your favorite color?") /\
  partialRecord after_turn1 "CA1" = mkInfo (Some "Sam") None None.
Proof. split; vm_compute; reflexivity. Qed.

Example turn2_continue :
  partialRecord after_turn2 "CA1" = mkInfo (Some "Sam") (Some "blue") None /\
  length (storedHistory after_turn2 "CA1") = 4.
Proof. split; vm_compute; reflexivity. Qed.

Example turn3_complete :
  let r := handleTurn (all_up "Thanks!") (req_turn "Medium well please") after_turn2 in
  fst r = Normal (Complete (closing (Some "Sam"))
                           (mkInfo (Some "Sam") (Some "blue") (Some "medium well"))) /\
  customers (db (snd r)) !! "+15550123" =
    Some (Customers.mkRow 1 (Some "Sam") (Some "blue") (Some "medium well")) /\
  length (sms_requests (snd r)) = 1.
Proof. repeat split; vm_compute; reflexivity. Qed.

(** The words of the assistant are part of the transcript too. *)
Example assistant_text_is_extracted :
  partialRecord
    (snd (handleTurn (all_up "Do you like it rare or well done?")
                     (req_turn "hello") after_voice)) "CA1"
  = mkInfo None None (Some "rare").
Proof. vm_compute. reflexivity. Qed.

(** * Further properties of the code *)

(** ** Characters *)

Lemma in_all_chars (c : ascii) : In c all_chars.
Proof.
  unfold all_chars. rewrite <- (ascii_nat_embedding c).
  apply in_map, in_seq. pose proof (nat_ascii_bounded c). lia.
Qed.

Lemma for_all_chars (P : ascii -> bool) :
  forallb P all_chars = true -> forall c, P c = true.
Proof. intros H c. rewrite forallb_forall in H. apply H, in_all_chars. Qed.



(** For a character of a cue, matching ignoring case is equality after
    lower-casing the input. *)
Lemma char_eqb_ci_cue (a b : ascii) :
  cue_char a = true ->
  Char.eqb_ci a b = Ascii.eqb (Char.toLowerCase b) a.
Proof.
  intros Ha.
  assert (Hall : forallb (fun x => forallb (fun y =>
             implb (cue_char x)
                   (Bool.eqb (Char.eqb_ci x y) (Ascii.eqb (Char.toLowerCase y) x)))
             all_chars) all_chars = true) by (vm_compute; reflexivity).
  pose proof (for_all_chars _ Hall a) as H1. cbv beta in H1.
  pose proof (for_all_chars _ H1 b) as H2. cbv beta in H2.
  rewrite Ha in H2. exact (Bool.eqb_prop _ _ H2).
Qed.

(** ** The name patterns, declaratively *)


Lemma namePatterns_cues : Forall (fun cue => cue_string cue = true) namePatterns.
Proof. repeat constructor. Qed.

(** The literal part of a pattern matches a prefix that lower-cases to the
    cue, and only such a prefix. *)
Lemma match_literal_spec (cue s rest : string) :
  cue_string cue = true ->
  match_literal cue s = Some rest <->
  exists lit, s = lit +:+ rest /\ toLowerCase lit = cue.
Proof.
  intros Hcue. revert s. induction cue as [|a cue IH]; intros s.
  - cbn [match_literal]. split.
    + intros [= ->]. now exists "".
    + intros [lit [-> Hl]]. destruct lit; [reflexivity | discriminate].
  - cbn [cue_string] in Hcue. apply andb_true_iff in Hcue as [Ha Hcue].
    destruct s as [|b s]; cbn [match_literal].
    + split; [discriminate|]. intros [lit [Hs Hl]].
      destruct lit; [discriminate | discriminate].
    + rewrite (char_eqb_ci_cue a b Ha).
      destruct (Ascii.eqb_spec (Char.toLowerCase b) a) as [Hb | Hb].
      * rewrite (IH Hcue). split.
        -- intros [lit [-> Hl]]. exists (String b lit). cbn. now rewrite Hb, Hl.
        -- intros [lit [Hs Hl]]. destruct lit as [|x lit]; [discriminate|].
           cbn in Hs, Hl. injection Hs as -> ->. injection Hl as _ Hl. now exists lit.
      * split; [discriminate|]. intros [lit [Hs Hl]].
        destruct lit as [|x lit]; [discriminate|].
        cbn in Hs, Hl. injection Hs as -> ->. injection Hl as Hx _. contradiction.
Qed.

(** [\w+] takes the longest run of word characters. *)
Lemma take_word_spec (s : string) :
  exists post,
    s = take_word s +:+ post /\ all_word (take_word s) = true /\
    starts_with_word post = false.
Proof.
  induction s as [|c s IH]; cbn [take_word].
  - now exists "".
  - destruct (Char.is_word c) eqn:Hc.
    + destruct IH as (post & Hs & Hw & Hp). exists post.
      cbn [all_word]. rewrite Hc, Hw. cbn. now rewrite <- Hs.
    + exists (String c s). cbn. now rewrite Hc.
Qed.

Lemma take_word_of_word (w post : string) :
  all_word w = true -> starts_with_word post = false ->
  take_word (w +:+ post) = w.
Proof.
  intros Hw Hp. induction w as [|c w IH]; cbn.
  - destruct post as [|x post]; [reflexivity|]. cbn in Hp. cbn. now rewrite Hp.
  - cbn in Hw. apply andb_true_iff in Hw as [Hc Hw]. now rewrite Hc, IH.
Qed.

Lemma match_at_spec (cue s w : string) :
  cue_string cue = true ->
  match_at cue s = Some w <->
  exists lit post,
    s = lit +:+ w +:+ post /\ toLowerCase lit = cue /\
    w <> "" /\ all_word w = true /\ starts_with_word post = false.
Proof.
  intros Hcue. unfold match_at. split.
  - destruct (match_literal cue s) as [rest|] eqn:Hl; [|discriminate].
    apply (match_literal_spec _ _ _ Hcue) in Hl as (lit & -> & Hlit).
    destruct (take_word_spec rest) as (post & Hrest & Hw & Hp).
    destruct (take_word rest) as [|c w0] eqn:Ht; [discriminate|].
    intros [= <-]. exists lit, post. rewrite <- Hrest.
    repeat split; auto; discriminate.
  - intros (lit & post & -> & Hlit & Hne & Hw & Hp).
    assert (Hl : match_literal cue (lit +:+ w +:+ post) = Some (w +:+ post))
      by (apply (match_literal_spec _ _ _ Hcue); now exists lit).
    rewrite Hl, (take_word_of_word _ _ Hw Hp).
    destruct w; [contradiction | reflexivity].
Qed.

Lemma regex_match_Some (cue s w : string) :
  regex_match cue s = Some w ->
  exists pre suf, s = pre +:+ suf /\ match_at cue suf = Some w.
Proof.
  induction s as [|c s IH]; cbn [regex_match].
  - destruct (match_at cue "") eqn:H; [|discriminate].
    intros [= <-]. now exists "", "".
  - destruct (match_at cue (String c s)) eqn:H.
    + intros [= <-]. now exists "", (String c s).
    + intros Hs. destruct (IH Hs) as (pre & suf & -> & Hm).
      now exists (String c pre), suf.
Qed.

Lemma regex_match_None (cue s : string) :
  regex_match cue s = None ->
  forall pre suf, s = pre +:+ suf -> match_at cue suf = None.
Proof.
  induction s as [|c s IH]; cbn [regex_match].
  - destruct (match_at cue "") eqn:H; [discriminate|].
    intros _ pre suf Hs. destruct pre; [|discriminate]. cbn in Hs. now subst.
  - destruct (match_at cue (String c s)) eqn:H; [discriminate|].
    intros Hs pre suf Hsplit. destruct pre as [|x pre]; cbn in Hsplit.
    + now subst.
    + injection Hsplit as _ ->. now apply (IH Hs pre).
Qed.

Lemma regex_match_set_iff (cue s : string) :
  cue_string cue = true ->
  is_set (regex_match cue s) <-> cue_before_word cue s.
Proof.
  intros Hcue. split.
  - intros [w Hw]. apply regex_match_Some in Hw as (pre & suf & -> & Hm).
    apply (match_at_spec _ _ _ Hcue) in Hm as (lit & post & -> & Hlit & Hne & Hw & _).
    destruct w as [|c w]; [contradiction|]. cbn in Hw.
    apply andb_true_iff in Hw as [Hc _].
    exists pre, lit, c, (w +:+ post). now repeat split.
  - intros (pre & lit & c & post & -> & Hlit & Hc).
    destruct (regex_match cue (pre +:+ lit +:+ String c post)) as [w|] eqn:Hr;
      [now exists w|].
    pose proof (regex_match_None _ _ Hr pre _ eq_refl) as Hm.
    destruct (take_word_spec (String c post)) as (post' & Hsplit & Hw & Hp).
    assert (Hsome : match_at cue (lit +:+ String c post)
                    = Some (take_word (String c post))).
    { apply (match_at_spec _ _ _ Hcue). exists lit, post'.
      rewrite <- Hsplit. repeat split; auto. cbn. now rewrite Hc. }
    congruence.
Qed.

Lemma first_match_Some (patterns : list string) (s w : string) :
  first_match patterns s = Some w ->
  exists cue, In cue patterns /\ regex_match cue s = Some w.
Proof.
  induction patterns as [|cue rest IH]; cbn [first_match]; [discriminate|].
  destruct (regex_match cue s) eqn:H.
  - intros [= <-]. exists cue. split; [now left | assumption].
  - intros Hs. destruct (IH Hs) as (cue' & Hin & Hr). exists cue'.
    split; [now right | assumption].
Qed.

Lemma first_match_set_iff (patterns : list string) (s : string) :
  is_set (first_match patterns s) <->
  exists cue, In cue patterns /\ is_set (regex_match cue s).
Proof.
  induction patterns as [|cue rest IH]; cbn [first_match].
  - split; [intros [w H]; discriminate | intros (cue & [] & _)].
  - destruct (regex_match cue s) eqn:H.
    + split; [|intros _; now eexists].
      intros _. exists cue. split; [now left | rewrite H; now eexists].
    + rewrite IH. split.
      * intros (cue' & Hin & Hs). exists cue'. split; [now right | assumption].
      * intros (cue' & [<- | Hin] & Hs).
        -- rewrite H in Hs. destruct Hs; discriminate.
        -- now exists cue'.
Qed.

(** X1.  A name the extractor returns is the whole word that follows a cue
    in the transcript: the transcript reads [pre ++ lit ++ name ++ post]
    where [lit] is one of the three cues in any case, the name is a
    non-empty run of characters of [\w] copied in its own case, and it is
    not cut short ([post] does not begin with a character of [\w]). *)
Theorem name_is_word_after_cue (conversation w : string) :
  name (extractInformation conversation) = Some w ->
  exists cue pre lit post,
    In cue namePatterns /\
    conversation = pre +:+ lit +:+ w +:+ post /\
    toLowerCase lit = cue /\
    w <> "" /\ all_word w = true /\ starts_with_word post = false.
Proof.
  unfold extractInformation; cbn [name]. intros H.
  apply first_match_Some in H as (cue & Hin & Hr).
  apply regex_match_Some in Hr as (pre & suf & -> & Hm).
  assert (Hcue : cue_string cue = true).
  { pose proof namePatterns_cues as Hall. rewrite Forall_forall in Hall.
    apply Hall. now apply list_elem_of_In. }
  apply (match_at_spec _ _ _ Hcue) in Hm as (lit & post & -> & Hlit & Hne & Hw & Hp).
  exists cue, pre, lit, post. now repeat split.
Qed.

Lemma name_is_word_after_cue_witness :
  exists cue pre lit post,
    In cue namePatterns /\
    "Hello, THIS IS Sam_2 speaking" = pre +:+ lit +:+ "Sam_2" +:+ post /\
    toLowerCase lit = cue /\
    "Sam_2" <> "" /\ all_word "Sam_2" = true /\ starts_with_word post = false.
Proof.
  apply (name_is_word_after_cue "Hello, THIS IS Sam_2 speaking" "Sam_2").
  vm_compute. reflexivity.
Defined.

(** X2.  The extractor returns a name exactly when one of the three cues
    ("my name is ", "i'm ", "this is ", in any case) stands somewhere in the
    transcript directly before a character of [\w]. *)
Theorem name_set_iff_cue_before_word (conversation : string) :
  is_set (name (extractInformation conversation)) <->
  exists cue, In cue namePatterns /\ cue_before_word cue conversation.
Proof.
  unfold extractInformation; cbn [name]. rewrite first_match_set_iff.
  pose proof namePatterns_cues as Hall. rewrite Forall_forall in Hall.
  split; intros (cue & Hin & H); exists cue; (split; [exact Hin|]);
    apply regex_match_set_iff; auto; apply Hall; now apply list_elem_of_In.
Qed.

(** ** Case of the transcript *)







(** ** The vocabularies *)

Lemma first_included_None (voc : list string) (text : string) :
  first_included voc text = None <->
  forall w, In w voc -> ~ contains text w.
Proof.
  induction voc as [|v voc IH]; cbn [first_included].
  - split; [intros _ w [] | reflexivity].
  - destruct (includes text v) eqn:Hv.
    + split; [discriminate|]. intros H. exfalso.
      apply (H v); [now left | now apply includes_spec].
    + rewrite IH. split.
      * intros H w [<- | Hin]; [|now apply H].
        rewrite <- includes_spec. congruence.
      * intros H w Hin. apply H. now right.
Qed.

(** X4.  What the steak loop answers, case by case: "rare" whenever the
    lower-cased transcript contains it (also inside "medium rare"); else
    "medium well" when that occurs; else "medium"; else "well done"; and
    nothing when none of "rare", "medium", "well done" occurs.  "medium
    rare" is never the answer. *)
Theorem steakPreference_table (conversation : string) :
  let t := toLowerCase conversation in
  let p := steakPreference (extractInformation conversation) in
  (p = Some "rare" <-> contains t "rare") /\
  (p = Some "medium well" <-> ~ contains t "rare" /\ contains t "medium well") /\
  (p = Some "medium" <->
   ~ contains t "rare" /\ ~ contains t "medium well" /\ contains t "medium") /\
  (p = Some "well done" <->
   ~ contains t "rare" /\ ~ contains t "medium" /\ contains t "well done") /\
  (p = None <->
   ~ contains t "rare" /\ ~ contains t "medium" /\ ~ contains t "well done") /\
  p <> Some "medium rare".
Proof.
  cbv zeta. unfold extractInformation; cbn [steakPreference].
  set (t := toLowerCase conversation).
  assert (Hmr : includes t "medium rare" = true -> includes t "rare" = true).
  { rewrite !includes_spec. apply contains_medium_rare. }
  assert (Hmw : includes t "medium well" = true -> includes t "medium" = true).
  { rewrite !includes_spec. intros [pre [post ->]].
    exists pre, (" well" +:+ post). reflexivity. }
  rewrite <- !includes_spec. unfold steakPrefs; cbn [first_included].
  destruct (includes t "rare"), (includes t "medium rare"),
    (includes t "medium well"), (includes t "medium"), (includes t "well done");
    try (specialize (Hmr eq_refl); discriminate Hmr);
    try (specialize (Hmw eq_refl); discriminate Hmw);
    repeat split; try discriminate; try tauto; try (intros; intuition discriminate).
Qed.

(** X5.  The extractor leaves [favoriteColor] out exactly when none of the
    ten color words occurs in the lower-cased transcript, and a color it
    returns is one of the ten and occurs there. *)
Theorem favoriteColor_none_iff (conversation : string) :
  (favoriteColor (extractInformation conversation) = None <->
   forall c, In c colors -> ~ contains (toLowerCase conversation) c) /\
  (forall c, favoriteColor (extractInformation conversation) = Some c ->
             In c colors /\ contains (toLowerCase conversation) c).
Proof.
  unfold extractInformation; cbn [favoriteColor]. split.
  - apply first_included_None.
  - intros c H. apply first_included_in in H as [Hin Hc].
    split; [exact Hin | now apply includes_spec].
Qed.

(** ** Every way a turn can go *)

Lemma all_present_dec (i : Info) : all_present i \/ ~ all_present i.
Proof.
  unfold all_present, is_set.
  destruct (name i), (favoriteColor i), (steakPreference i);
    try (left; repeat split; eexists; reflexivity);
    right; intros (H1 & H2 & H3);
    try (destruct H1; discriminate); try (destruct H2; discriminate);
    destruct H3; discriminate.
Qed.

(** A turn fails before it has written anything, or it has written the
    session and then continues, fails on saving the customer, or
    completes. *)
Lemma handleTurn_cases (env : Collaborators) (req : Request) (w : World) :
  (exists e,
     handleTurn env req w =
       (Normal (Failed apology),
        mkWorld (db w) (console w ++ [console_error "Error processing call:" e])
                (sms_requests w))) \/
  (exists row ai,
     select_session (CallSid req) (db w) = Some row /\
     openai_create env (turn_messages row (speech_of req)) = inr ai /\
     ((~ all_present (turn_info row req ai) /\
       handleTurn env req w =
         (Normal (Continue ai),
          mkWorld (turn_db row req ai (db w)) (console w) (sms_requests w))) \/
      (all_present (turn_info row req ai) /\
       exists e,
         sqlite_err env ReplaceCustomer = Some e /\
         handleTurn env req w =
           (Normal (Failed apology),
            mkWorld (turn_db row req ai (db w))
                    (console w ++ [console_error "Error processing call:" e])
                    (sms_requests w))) \/
      (all_present (turn_info row req ai) /\
       exists pref t line,
         steakPreference (turn_info row req ai) = Some pref /\
         tempInfo_for pref = Some t /\
         handleTurn env req w =
           (Normal (Complete (closing (name (turn_info row req ai)))
                             (turn_info row req ai)),
            mkWorld (replace_customer (From req) (turn_info row req ai)
                                      (turn_db row req ai (db w)))
                    (console w ++ [line])
                    (sms_requests w ++
                       [steak_sms env (From req) (turn_info row req ai) pref t]))))).
Proof.
  destruct (sqlite_err env SelectSession) as [e|] eqn:Hs;
    [left; exists e; now apply handleTurn_select_err|].
  destruct (select_session (CallSid req) (db w)) as [row|] eqn:Hr;
    [|left; exists TypeError; now apply handleTurn_no_session].
  destruct (openai_create env (turn_messages row (speech_of req))) as [e|ai] eqn:Hai;
    [left; exists e; now apply (handleTurn_openai_err env req w row)|].
  destruct (sqlite_err env UpdateSession) as [e|] eqn:Hu;
    [left; exists e; now apply (handleTurn_update_err env req w row Hs Hr ai)|].
  right. exists row, ai. split; [reflexivity|]. split; [exact Hai|].
  pose proof (truthy_all_present
                (fullConversation (next_history row (speech_of req) ai))) as Htp.
  cbv zeta in Htp. fold (turn_info row req ai) in Htp.
  destruct (truthy (name (turn_info row req ai))
            && truthy (favoriteColor (turn_info row req ai))
            && truthy (steakPreference (turn_info row req ai))) eqn:Hall.
  - assert (Hp : all_present (turn_info row req ai)) by now apply Htp.
    destruct (sqlite_err env ReplaceCustomer) as [e|] eqn:Hc.
    + right; left. split; [exact Hp|]. exists e. split; [reflexivity|].
      now apply (handleTurn_replace_err env req w row Hs Hr ai Hai Hu Hall).
    + right; right. split; [exact Hp|].
      destruct (handleTurn_complete env req w row Hs Hr ai Hai Hu Hall Hc)
        as (pref & t & Hpref & Ht & Hrun).
      exists pref, t. eexists. split; [exact Hpref|]. split; [exact Ht|]. exact Hrun.
  - left. split.
    + intros Hp. apply Htp in Hp. congruence.
    + now apply (handleTurn_continue env req w row Hs Hr ai Hai Hu).
Qed.

Lemma select_session_replace_customer
    (callSid phoneNumber : string) (info : Info) (d : Db) :
  select_session callSid (replace_customer phoneNumber info d)
  = select_session callSid d.
Proof. reflexivity. Qed.

(** X6.  [/gather] always answers: whatever the collaborators do, the
    handler resolves, with one [Say] followed by either a new [Gather] or
    a [Hangup]; no error escapes it. *)
Theorem gather_always_answers (env : Collaborators) (req : Request) (w : World) :
  exists prompt,
    fst (gather env req w) = Normal [Say "alice" prompt; gather_verb] \/
    fst (gather env req w) = Normal [Say "alice" prompt; Hangup].
Proof.
  unfold gather, bind, ret.
  destruct (handleTurn_cases env req w)
    as [[e ->] | (row & ai & _ & _ &
                  [[_ ->] | [(_ & e & _ & ->) | (_ & pref & t & line & _ & _ & ->)]])];
    cbn [fst twiml_of]; eauto.
Qed.

(** X7.  The call is hung up only over a saved record: when a turn is
    [Complete], the prompt is the closing that names the caller, the record
    it reports has its three fields, that record is the stored partial
    record of the call and the customer row of the caller's number, and one
    text message to the caller was requested, with the cooking data of the
    reported doneness. *)
Theorem complete_means_saved
    (env : Collaborators) (req : Request) (w : World)
    (prompt : string) (record : Info) :
  fst (handleTurn env req w) = Normal (Complete prompt record) ->
  let w' := snd (handleTurn env req w) in
  all_present record /\
  prompt = closing (name record) /\
  partialRecord w' (CallSid req) = record /\
  (exists id,
     customers (db w') !! From req =
       Some (Customers.mkRow id (name record) (favoriteColor record)
                             (steakPreference record))) /\
  (exists sms,
     sms_requests w' = sms_requests w ++ [sms] /\ to sms = From req /\
     Some (msg_steakPreference (body sms)) = steakPreference record).
Proof.
  destruct (handleTurn_cases env req w)
    as [[e ->] | (row & ai & Hrow & _ &
                  [[_ ->] | [(_ & e & _ & ->) | (Hp & pref & t & line & Hpref & _ & ->)]])];
    cbn [fst snd]; try discriminate.
  intros [= <- <-]. cbv zeta. split; [exact Hp|]. split; [reflexivity|].
  split; [|split].
  - unfold partialRecord; cbn [db]. rewrite select_session_replace_customer.
    unfold turn_db. now rewrite (select_session_update_same _ _ _ _ _ Hrow).
  - eexists. cbn [db]. unfold replace_customer; cbn [customers].
    apply lookup_insert_eq.
  - eexists. cbn [sms_requests]. split; [reflexivity|]. split; [reflexivity|].
    unfold steak_sms; cbn [body msg_steakPreference]. now rewrite Hpref.
Qed.

Lemma complete_means_saved_witness :
  partialRecord
    (snd (handleTurn (twilio_down "Thanks!") (req_turn "Medium well please") after_turn2))
    "CA1"
  = mkInfo (Some "Sam") (Some "blue") (Some "medium well").
Proof.
  refine (proj1 (proj2 (proj2 (complete_means_saved (twilio_down "Thanks!")
            (req_turn "Medium well please") after_turn2
            (closing (Some "Sam"))
            (mkInfo (Some "Sam") (Some "blue") (Some "medium well")) _)))).
  vm_compute. reflexivity.
Defined.

(** ** What a turn writes *)

Lemma update_session_keys (callSid : string) (h : list Message) (i : Info) (d : Db) :
  map row_key (call_sessions (update_session callSid h i d))
  = map row_key (call_sessions d).
Proof.
  unfold update_session; cbn [call_sessions].
  induction (call_sessions d) as [|x l IH]; cbn [map]; [reflexivity|].
  rewrite IH. now destruct (String.eqb (CallSessions.call_sid x) callSid).
Qed.

Lemma sessions_of_update_other
    (callSid sid : string) (h : list Message) (i : Info) (d : Db) :
  sid <> callSid ->
  sessions_of sid (update_session callSid h i d) = sessions_of sid d.
Proof.
  intros Hne. unfold sessions_of, update_session; cbn [call_sessions].
  induction (call_sessions d) as [|x l IH]; cbn [map List.filter]; [reflexivity|].
  destruct (String.eqb (CallSessions.call_sid x) callSid) eqn:E.
  - apply String.eqb_eq in E. cbn [CallSessions.call_sid].
    assert (E' : String.eqb (CallSessions.call_sid x) sid = false)
      by (apply String.eqb_neq; congruence).
    now rewrite E'.
  - now rewrite IH.
Qed.

(** X8.  A turn writes to the rows of its own call only: the rows of every
    other call are exactly as before, and no row is added, removed,
    renumbered or moved to another call or caller. *)
Theorem turn_touches_own_call_only (env : Collaborators) (req : Request) (w : World) :
  let w' := snd (handleTurn env req w) in
  (forall callSid,
     callSid <> CallSid req ->
     sessions_of callSid (db w') = sessions_of callSid (db w)) /\
  map row_key (call_sessions (db w')) = map row_key (call_sessions (db w)).
Proof.
  cbv zeta. split.
  - intros callSid Hne. unfold sessions_of.
    destruct (handleTurn_sessions env req w) as [-> | (row & ai & _ & ->)];
      [reflexivity|].
    now apply sessions_of_update_other.
  - destruct (handleTurn_sessions env req w) as [-> | (row & ai & _ & ->)];
      [reflexivity | apply update_session_keys].
Qed.

Lemma storedHistory_turn_db
    (row : CallSessions.row) (req : Request) (ai : string) (d : Db) :
  select_session (CallSid req) d = Some row ->
  select_session (CallSid req) (turn_db row req ai d) =
    Some (CallSessions.mkRow (CallSessions.id row) (CallSessions.call_sid row)
            (CallSessions.phone_number row)
            (Some (next_history row (speech_of req) ai)) (turn_info row req ai)).
Proof. intros H. unfold turn_db. now apply select_session_update_same. Qed.

(** X9.  A turn that continues has stored exactly two more messages, the
    user's utterance and then the assistant's reply it speaks, and the
    stored partial record is the extraction over the whole stored history
    (not over the six messages sent to the generation service); the record
    is still incomplete, and neither a customer row nor a text message was
    produced. *)
Theorem continue_stores_the_turn
    (env : Collaborators) (req : Request) (w : World) (prompt : string) :
  fst (handleTurn env req w) = Normal (Continue prompt) ->
  let w' := snd (handleTurn env req w) in
  storedHistory w' (CallSid req) =
    storedHistory w (CallSid req) ++
      [mkMessage user (speech_of req); mkMessage assistant prompt] /\
  partialRecord w' (CallSid req) =
    extractInformation (fullConversation (storedHistory w' (CallSid req))) /\
  ~ all_present (partialRecord w' (CallSid req)) /\
  customers (db w') = customers (db w) /\
  sms_requests w' = sms_requests w.
Proof.
  destruct (handleTurn_cases env req w)
    as [[e ->] | (row & ai & Hrow & _ &
                  [[Hp ->] | [(_ & e & _ & ->) | (_ & pref & t & line & _ & _ & ->)]])];
    cbn [fst snd]; try discriminate.
  intros [= <-]. cbv zeta. unfold storedHistory, partialRecord; cbn [db].
  rewrite (storedHistory_turn_db _ _ _ _ Hrow), Hrow.
  cbn [history_of CallSessions.conversation_state CallSessions.collected_data].
  unfold next_history at 1. rewrite <- app_assoc. repeat split. exact Hp.
Qed.

Lemma continue_stores_the_turn_witness :
  storedHistory after_turn2 "CA1" =
    storedHistory after_turn1 "CA1" ++
      [mkMessage user "I like blue";
       mkMessage assistant "Blue, great. And how do you like your steak?"].
Proof.
  refine (proj1 (continue_stores_the_turn
            (all_up "Blue, great. And how do you like your steak?")
            (req_turn "I like blue") after_turn1
            "Blue, great. And how do you like your steak?" _)).
  vm_compute. reflexivity.
Defined.

(** X10.  The session is written before the customer is saved, and nothing
    undoes it: when SQLite fails on the customer upsert of a turn that
    filled the last slot, the turn is [Failed] and asks again, yet the
    stored history already holds the turn's two messages and the stored
    partial record is complete; no customer row and no text message
    exist. *)
Theorem save_failure_keeps_the_turn
    (env : Collaborators) (req : Request) (w : World)
    (row : CallSessions.row) (aiResponse : string) (e : Exn) :
  sqlite_err env SelectSession = None ->
  sqlite_err env UpdateSession = None ->
  sqlite_err env ReplaceCustomer = Some e ->
  select_session (CallSid req) (db w) = Some row ->
  openai_create env (turn_messages row (speech_of req)) = inr aiResponse ->
  all_present (turn_info row req aiResponse) ->
  let w' := snd (handleTurn env req w) in
  fst (handleTurn env req w) = Normal (Failed apology) /\
  storedHistory w' (CallSid req) =
    storedHistory w (CallSid req) ++
      [mkMessage user (speech_of req); mkMessage assistant aiResponse] /\
  all_present (partialRecord w' (CallSid req)) /\
  customers (db w') = customers (db w) /\
  sms_requests w' = sms_requests w.
Proof.
  intros Hs Hu Hc Hrow Hai Hp. cbv zeta.
  assert (Hall : truthy (name (turn_info row req aiResponse))
                 && truthy (favoriteColor (turn_info row req aiResponse))
                 && truthy (steakPreference (turn_info row req aiResponse)) = true)
    by now apply truthy_all_present.
  rewrite (handleTurn_replace_err env req w row Hs Hrow aiResponse Hai Hu Hall e Hc).
  cbn [fst snd]. unfold storedHistory, partialRecord; cbn [db].
  fold (turn_info row req aiResponse). fold (turn_db row req aiResponse (db w)).
  rewrite (storedHistory_turn_db _ _ _ _ Hrow), Hrow.
  cbn [history_of CallSessions.conversation_state CallSessions.collected_data].
  unfold next_history. rewrite <- app_assoc. repeat split; apply Hp.
Qed.

Lemma save_failure_keeps_the_turn_witness :
  fst (handleTurn (save_down "Thanks!") (req_turn "Medium well please") after_turn2)
    = Normal (Failed apology) /\
  length (storedHistory
            (snd (handleTurn (save_down "Thanks!") (req_turn "Medium well please")
                             after_turn2)) "CA1") = 6.
Proof.
  edestruct (save_failure_keeps_the_turn (save_down "Thanks!")
               (req_turn "Medium well please") after_turn2) as (H1 & H2 & _).
  - reflexivity.
  - reflexivity.
  - reflexivity.
  - vm_compute. reflexivity.
  - reflexivity.
  - vm_compute. repeat split; eexists; reflexivity.
  - split; [exact H1|].
    exact (eq_trans (f_equal (@length Message) H2) eq_refl).
Defined.

(** ** The request to the generation service *)

Lemma slice_last_push {A} (h : list A) (u : A) :
  slice_last 6 (h ++ [u]) = drop (length h - 5) h ++ [u].
Proof.
  unfold slice_last. rewrite length_app. cbn [length].
  replace (length h + 1 - 6) with (length h - 5) by lia.
  apply drop_app_le. lia.
Qed.

(** X11.  The request a turn sends to the generation service is the system
    prompt, then the last five stored messages at most (older ones are not
    sent), then the new utterance twice: once as the last entry of the
    history and once more as the user input.  Nothing else of the
    generation service bears on the turn: two services that answer this
    one request alike give the same outcome and the same world. *)
Theorem generation_request_window (row : CallSessions.row) (speech : string) :
  (exists older window,
     history_of row = older ++ window /\
     length window <= 5 /\
     (length (history_of row) <= 5 -> older = []) /\
     turn_messages row speech =
       [mkMessage system systemPrompt] ++ window ++
       [mkMessage user speech; mkMessage user speech]) /\
  (forall env1 env2 req w,
     same_but_openai env1 env2 ->
     speech_of req = speech ->
     select_session (CallSid req) (db w) = Some row ->
     openai_create env1 (turn_messages row speech)
       = openai_create env2 (turn_messages row speech) ->
     handleTurn env1 req w = handleTurn env2 req w).
Proof.
  split.
  - exists (take (length (history_of row) - 5) (history_of row)),
           (drop (length (history_of row) - 5) (history_of row)).
    split; [now rewrite take_drop|]. split; [rewrite length_drop; lia|].
    split.
    + intros Hle. replace (length (history_of row) - 5) with 0 by lia. reflexivity.
    + unfold turn_messages. rewrite slice_last_push, <- app_assoc. reflexivity.
  - intros env1 env2 req w (Ht & Hs & Hp) <- Hrow Hai.
    destruct env1 as [o1 t1 s1 p1], env2 as [o2 t2 s2 p2].
    cbn [twilio_create sqlite_err twilio_phoneNumber openai_create] in *.
    subst t2 s2 p2. run_handler.
    cbn [twilio_create sqlite_err twilio_phoneNumber openai_create].
    destruct (s1 SelectSession); [reflexivity|]. rewrite Hrow.
    unfold turn_messages, history_of, speech_of in Hai. cbv beta iota zeta.
    rewrite Hai. reflexivity.
Qed.

(** ** [sendSteakInstructions] *)



(** ** [/voice] *)

Lemma world_eta (w : World) : mkWorld (db w) (console w) (sms_requests w) = w.
Proof. now destruct w. Qed.

(** X13.  [/voice] for a call that has a session changes nothing: the
    stored history and partial record are kept, not reset, and no second
    row appears.  For a call without a session it appends one row for the
    call and the caller, with an empty history and an empty record.  After
    a [/voice] that resolved, the session of the call exists, so the next
    turn finds it. *)
Theorem voice_creates_or_keeps (env : Collaborators) (req : Request) (w : World) :
  let w' := snd (voice env req w) in
  (forall row,
     select_session (CallSid req) (db w) = Some row ->
     w' = w) /\
  (select_session (CallSid req) (db w) = None ->
   w' = w \/
   w' = mkWorld (snd (insert_session (CallSid req) (From req) (db w)))
                (console w) (sms_requests w) /\
   sessions_of (CallSid req) (db w') =
     [CallSessions.mkRow (S (call_sessions_seq (db w))) (CallSid req) (From req)
                         (Some []) empty_info]) /\
  (forall twiml,
     fst (voice env req w) = Normal twiml ->
     twiml = [Say "alice" greeting; gather_verb] /\
     exists row,
       select_session (CallSid req) (db w') = Some row /\
       CallSessions.call_sid row = CallSid req).
Proof.
  cbv zeta. unfold voice. run_handler.
  destruct (sqlite_err env SelectSession) as [e|] eqn:Hs.
  - cbn [fst snd]. repeat split; auto; discriminate.
  - cbv beta iota zeta. cbn [db console sms_requests].
    destruct (select_session (CallSid req) (db w)) as [row|] eqn:Hr.
    + cbn [fst snd]. rewrite world_eta. split; [reflexivity|].
      split; [discriminate|]. intros twiml [= <-]. split; [reflexivity|].
      exists row. split; [exact Hr | now apply select_session_in in Hr].
    + destruct (sqlite_err env InsertSession) as [e|] eqn:Hi.
      * cbn [fst snd]. rewrite world_eta. repeat split; auto; discriminate.
      * pose proof (sessions_of_insert (CallSid req) (From req) (db w)) as Hins.
        assert (Hnone : sessions_of (CallSid req) (db w) = []).
        { rewrite select_session_head in Hr.
          destruct (sessions_of (CallSid req) (db w)); [reflexivity | discriminate]. }
        rewrite Hnone in Hins. cbn [app] in Hins.
        cbv beta iota zeta. cbn [db console sms_requests].
        unfold insert_session in *. cbn [fst snd db] in *.
        split; [discriminate|]. split.
        -- intros _. right. split; [reflexivity | exact Hins].
        -- intros twiml [= <-]. split; [reflexivity|].
           eexists. rewrite select_session_head, Hins. cbn [head].
           split; reflexivity.
Qed.

(** X14.  [/voice] has no [catch]: it rejects exactly when SQLite reports
    an error for its SELECT, or, the call having no session, for its
    INSERT; the error is SQLite's, and the world is unchanged. *)
Theorem voice_rejects_iff_sqlite_fails
    (env : Collaborators) (req : Request) (w : World) (e : Exn) :
  fst (voice env req w) = Throw e <->
  sqlite_err env SelectSession = Some e \/
  (sqlite_err env SelectSession = None /\
   select_session (CallSid req) (db w) = None /\
   sqlite_err env InsertSession = Some e).
Proof.
  unfold voice. run_handler.
  destruct (sqlite_err env SelectSession) as [e1|] eqn:Hs.
  - cbn [fst]. split.
    + intros [= ->]. now left.
    + intros [[= ->] | [[=] _]]. reflexivity.
  - cbv beta iota zeta. cbn [db console sms_requests].
    destruct (select_session (CallSid req) (db w)) as [row|] eqn:Hr.
    + cbn [fst]. split; [discriminate|]. intros [[=] | (_ & [=] & _)].
    + destruct (sqlite_err env InsertSession) as [e2|] eqn:Hi.
      * cbn [fst]. split.
        -- intros [= ->]. right. now repeat split.
        -- intros [[=] | (_ & _ & [= ->])]. reflexivity.
      * cbv beta iota zeta. cbn [db console sms_requests].
        unfold insert_session. cbn [fst].
        split; [discriminate|]. intros [[=] | (_ & _ & [=])].
Qed.

(** ** Customers and text messages of every reachable world *)

Lemma extracted_name_word (conversation w : string) :
  name (extractInformation conversation) = Some w ->
  w <> "" /\ all_word w = true.
Proof.
  unfold extractInformation; cbn [name]. intros H.
  apply first_match_Some in H as (cue & Hin & Hr).
  apply regex_match_Some in Hr as (pre & suf & -> & Hm).
  assert (Hcue : cue_string cue = true).
  { pose proof namePatterns_cues as Hall. rewrite Forall_forall in Hall.
    apply Hall. now apply list_elem_of_In. }
  apply (match_at_spec _ _ _ Hcue) in Hm as (lit & post & _ & _ & Hne & Hw & _).
  now split.
Qed.

Lemma extracted_pref (conversation p : string) :
  steakPreference (extractInformation conversation) = Some p ->
  In p extractable_prefs.
Proof.
  intros H. pose proof (medium_rare_unreachable conversation) as Hmr.
  rewrite H in Hmr. unfold extractInformation in H; cbn [steakPreference] in H.
  apply first_included_in in H as [Hin _]. cbn in Hin. cbn.
  intuition congruence.
Qed.

Lemma extracted_customer_complete (conversation : string) (id : nat) :
  all_present (extractInformation conversation) ->
  customer_complete
    (Customers.mkRow id (name (extractInformation conversation))
       (favoriteColor (extractInformation conversation))
       (steakPreference (extractInformation conversation))).
Proof.
  intros ([n Hn] & [c Hc] & [p Hp]). exists n, c, p.
  cbn [Customers.name Customers.favorite_color Customers.steak_preference].
  destruct (extracted_name_word _ _ Hn) as [Hne Hw].
  repeat split; auto.
  - unfold extractInformation in Hc; cbn [favoriteColor] in Hc.
    now apply first_included_in in Hc.
  - now apply extracted_pref in Hp.
Qed.

(** For a doneness the extractor can return, the table has its own entry:
    the fallback to "medium" is not taken. *)
Lemma tempInfo_for_extractable (p : string) (t : TempInfo) :
  In p extractable_prefs -> tempInfo_for p = Some t ->
  steakTemperatures !! p = Some t.
Proof.
  intros Hin Ht. cbn in Hin.
  destruct Hin as [<- | [<- | [<- | [<- | []]]]];
    vm_compute in Ht; vm_compute; exact Ht.
Qed.

Lemma voice_keeps_records (env : Collaborators) (req : Request) (w : World) :
  customers (db (snd (voice env req w))) = customers (db w) /\
  sms_requests (snd (voice env req w)) = sms_requests w.
Proof.
  unfold voice. run_handler.
  destruct (sqlite_err env SelectSession); [now split|].
  cbv beta iota zeta. cbn [db console sms_requests].
  destruct (select_session (CallSid req) (db w)); [now split|].
  destruct (sqlite_err env InsertSession); [now split|].
  cbv beta iota zeta. unfold insert_session. now split.
Qed.

Lemma handleTurn_keeps_records_sound
    (env : Collaborators) (req : Request) (w : World) :
  records_sound w -> records_sound (snd (handleTurn env req w)).
Proof.
  intros [Hc Hm].
  destruct (handleTurn_cases env req w)
    as [[e ->] | (row & ai & Hrow & _ &
                  [[_ ->] | [(_ & e & _ & ->) | (Hp & pref & t & line & Hpref & Ht & ->)]])];
    cbn [snd]; try (split; assumption).
  unfold records_sound; cbn [db sms_requests].
  unfold replace_customer; cbn [customers]. split.
  - apply map_Forall_insert_2; [|exact Hc].
    now apply extracted_customer_complete.
  - apply Forall_app. split.
    + eapply Forall_impl; [exact Hm|]. intros m [H1 H2]. split; [exact H1|].
      unfold turn_db, update_session; cbn [customers].
      apply lookup_insert_is_Some'. now right.
    + constructor; [|constructor]. split.
      * pose proof (extracted_pref _ _ Hpref) as Hin.
        unfold sms_matches_table, steak_sms; cbn [body msg_steakPreference msg_temp msg_time].
        split; [exact Hin|].
        rewrite (tempInfo_for_extractable _ _ Hin Ht). now destruct t.
      * unfold steak_sms; cbn [to]. rewrite lookup_insert_eq. now eexists.
Qed.

Lemma run_webhooks_records_sound (calls : list Webhook) :
  forall w, records_sound w -> records_sound (run_webhooks calls w).
Proof.
  induction calls as [|h calls IH]; intros w Hw; [exact Hw|].
  unfold run_webhooks; cbn [fold_left]. apply IH.
  destruct h as [env req | env req]; cbn [deliver].
  - destruct (voice_keeps_records env req w) as [Hc Hs].
    unfold records_sound. now rewrite Hc, Hs.
  - rewrite gather_world. now apply handleTurn_keeps_records_sound.
Qed.

Lemma empty_world_records_sound : records_sound empty_world.
Proof. split; [apply map_Forall_empty | constructor]. Qed.

(** X15.  Whatever webhooks the server has handled since it started with
    an empty database, every customer row is complete: its name is a
    non-empty word of [\w] characters, its color one of the ten color
    words, its doneness one of "rare", "medium well", "medium", "well
    done".  No row with a missing field, and no "medium rare" row, is ever
    written. *)
Theorem customers_always_complete
    (calls : list Webhook) (phoneNumber : string) (r : Customers.row) :
  customers (db (run_webhooks calls empty_world)) !! phoneNumber = Some r ->
  customer_complete r.
Proof.
  intros H.
  destruct (run_webhooks_records_sound calls _ empty_world_records_sound) as [Hc _].
  exact (Hc _ _ H).
Qed.

Lemma customers_always_complete_witness :
  customer_complete
    (Customers.mkRow 1 (Some "Sam") (Some "blue") (Some "medium well")).
Proof.
  apply (customers_always_complete call_of_sam "+15550123").
  vm_compute. reflexivity.
Defined.

(** X16.  Whatever webhooks the server has handled since it started with
    an empty database, every text message it requested goes to a number
    that has a customer row, names one of the four doneness labels the
    extractor can return, and carries the temperature and the time
    [steakTemperatures] lists for that very label (the "medium" fallback is
    never what a call gets). *)
Theorem sms_always_match_the_table (calls : list Webhook) (m : Sms) :
  In m (sms_requests (run_webhooks calls empty_world)) ->
  sms_matches_table m /\
  is_Some (customers (db (run_webhooks calls empty_world)) !! to m).
Proof.
  intros H.
  destruct (run_webhooks_records_sound calls _ empty_world_records_sound) as [_ Hm].
  rewrite Forall_forall in Hm. apply Hm. now apply list_elem_of_In.
Qed.

Lemma sms_always_match_the_table_witness :
  sms_matches_table
    (mkSms (mkSteakMessage "Sam" "blue" "medium well"
                           ("145-155" +:+ deg) "5-6 minutes per side")
           "+15550100" "+15550123").
Proof.
  refine (proj1 (sms_always_match_the_table call_of_sam _ _)).
  vm_compute. left. reflexivity.
Defined.

(** ** Overlapping invocations for a call that has a session *)

(** X17.  The race of [getOrCreateSession] is on the creation only: when
    the call already has a session, two overlapping invocations, under
    every schedule of their statements, leave the world as it is, never
    reach their INSERT, and each resolves, once its SELECT has run, with the
    first row of the call. *)
Theorem getOrCreate_existing_is_safe
    (env : Collaborators) (callSid phone1 phone2 : string) (w : World)
    (r : CallSessions.row) (schedule : list bool) :
  sqlite_err env = no_sqlite_err ->
  select_session callSid (db w) = Some r ->
  forall p1 p2,
    found_or_waiting r p1 -> found_or_waiting r p2 ->
    let '(p1', p2', w') := interleave env callSid phone1 phone2 schedule p1 p2 w in
    w' = w /\ found_or_waiting r p1' /\ found_or_waiting r p2'.
Proof.
  intros Herr Hr.
  assert (Hcb : forall phone p,
            found_or_waiting r p ->
            exists p', callback env callSid phone p w = (p', w) /\
                       found_or_waiting r p').
  { intros phone p [-> | ->]; cbn [callback].
    - unfold sqlite. rewrite Herr. unfold no_sqlite_err. rewrite Hr, world_eta.
      eexists. split; [reflexivity | now right].
    - eexists. split; [reflexivity | now right]. }
  induction schedule as [|b schedule IH]; intros p1 p2 H1 H2; cbn [interleave].
  - now repeat split.
  - destruct b.
    + destruct (Hcb phone1 p1 H1) as (p1' & -> & H1'). now apply IH.
    + destruct (Hcb phone2 p2 H2) as (p2' & -> & H2'). now apply IH.
Qed.

Lemma getOrCreate_existing_is_safe_witness :
  let '(p1', p2', w') :=
    interleave (all_up "") "CA1" "+15550123" "+15550123"
               [true; false; true; false] AwaitSelect AwaitSelect after_turn1 in
  w' = after_turn1.
Proof.
  pose proof (getOrCreate_existing_is_safe (all_up "") "CA1" "+15550123" "+15550123"
                after_turn1
                (CallSessions.mkRow 1 "CA1" "+15550123"
                   (Some [mkMessage user "Hi, my name is Sam";
                          mkMessage assistant
                            "Nice to meet you, Sam! What is your favorite color?"])
                   (mkInfo (Some "Sam") None None))
                [true; false; true; false] eq_refl eq_refl
                AwaitSelect AwaitSelect (or_introl eq_refl) (or_introl eq_refl)) as H.
  destruct (interleave (all_up "") "CA1" "+15550123" "+15550123"
              [true; false; true; false] AwaitSelect AwaitSelect after_turn1)
    as [[p1' p2'] w'].
  exact (proj1 H).
Defined.

(** ** The shape of the stored histories *)

Lemma exchanges_app (h : list Message) (speech ai : string) :
  exchanges h = true ->
  exchanges ((h ++ [mkMessage user speech]) ++ [mkMessage assistant ai]) = true.
Proof.
  rewrite <- app_assoc. cbn [app]. revert h.
  fix IH 1. intros [|u [|a rest]]; cbn [exchanges app]; [reflexivity | discriminate |].
  destruct (role u), (role a); try discriminate. apply IH.
Qed.

Lemma handleTurn_histories_wellformed
    (env : Collaborators) (req : Request) (w : World) :
  histories_wellformed w -> histories_wellformed (snd (handleTurn env req w)).
Proof.
  unfold histories_wellformed. intros Hw.
  destruct (handleTurn_sessions env req w) as [-> | (row & ai & Hrow & ->)];
    [exact Hw|].
  apply select_session_in in Hrow as [Hin _].
  pose proof Hw as Hall. rewrite Forall_forall in Hall.
  apply list_elem_of_In in Hin. destruct (Hall _ Hin) as (h & Hh & He).
  unfold update_session; cbn [call_sessions].
  apply Forall_map. eapply Forall_impl; [exact Hw|]. intros x Hx. cbn beta.
  destruct (String.eqb (CallSessions.call_sid x) (CallSid req)); [|exact Hx].
  eexists. cbn [CallSessions.conversation_state]. split; [reflexivity|].
  unfold next_history, history_of. rewrite Hh. now apply exchanges_app.
Qed.

Lemma voice_histories_wellformed (env : Collaborators) (req : Request) (w : World) :
  histories_wellformed w -> histories_wellformed (snd (voice env req w)).
Proof.
  unfold histories_wellformed. intros Hw.
  destruct (voice_sessions env req w) as [-> | [_ ->]]; [exact Hw|].
  apply Forall_app. split; [exact Hw|]. constructor; [|constructor].
  exists []. split; reflexivity.
Qed.

Lemma run_webhooks_histories_wellformed (calls : list Webhook) :
  forall w, histories_wellformed w -> histories_wellformed (run_webhooks calls w).
Proof.
  induction calls as [|h calls IH]; intros w Hw; [exact Hw|].
  unfold run_webhooks; cbn [fold_left]. apply IH.
  destruct h as [env req | env req]; cbn [deliver].
  - now apply voice_histories_wellformed.
  - rewrite gather_world. now apply handleTurn_histories_wellformed.
Qed.

(** X18.  Whatever webhooks the server has handled since it started with
    an empty database, the stored history of every session is a sequence of
    exchanges, each a user message followed by an assistant message: it has
    even length, never holds the system prompt, and never holds a user
    message without the reply that answered it. *)
Theorem stored_history_is_exchanges
    (calls : list Webhook) (callSid : string) :
  let h := storedHistory (run_webhooks calls empty_world) callSid in
  exchanges h = true /\
  Nat.Even (length h) /\
  Forall (fun m => role m <> system) h.
Proof.
  cbv zeta.
  assert (He : exchanges (storedHistory (run_webhooks calls empty_world) callSid)
               = true).
  { assert (Hw : histories_wellformed (run_webhooks calls empty_world))
      by (apply run_webhooks_histories_wellformed; constructor).
    unfold storedHistory.
    destruct (select_session callSid (db (run_webhooks calls empty_world)))
      as [r|] eqn:Hr; [|reflexivity].
    apply select_session_in in Hr as [Hin _].
    unfold histories_wellformed in Hw. rewrite Forall_forall in Hw.
    apply list_elem_of_In in Hin.
    destruct (Hw _ Hin) as (h & Hh & Hx).
    unfold history_of. now rewrite Hh. }
  split; [exact He|].
  revert He. generalize (storedHistory (run_webhooks calls empty_world) callSid).
  fix IH 1. intros [|u [|a rest]]; cbn [exchanges length].
  - intros _. split; [now exists 0 | constructor].
  - discriminate.
  - destruct (role u) eqn:Hu, (role a) eqn:Ha; try discriminate.
    intros He. destruct (IH rest He) as [[k Hk] Hf]. split.
    + exists (S k). lia.
    + constructor; [congruence|]. constructor; [congruence | exact Hf].
Qed.

(** ** Whose words fill the slots *)

Lemma join_last (sep : string) (l : list string) (x : string) :
  exists pre, join sep (l ++ [x]) = pre +:+ x.
Proof.
  induction l as [|y l IH].
  - now exists "".
  - destruct IH as [pre IH]. destruct l as [|z l].
    + exists (y +:+ sep). cbn. now rewrite append_assoc.
    + exists (y +:+ sep +:+ pre).
      change (join sep ((y :: z :: l) ++ [x]))
        with (y +:+ sep +:+ join sep ((z :: l) ++ [x])).
      rewrite IH. now rewrite !append_assoc.
Qed.

(** X19.  The record is extracted from the assistant's replies as well as
    from the caller's words: when a turn continues and the reply it speaks
    contains "rare" in any case (as a reply that lists the options does),
    the stored steak preference is "rare", whatever the caller has said;
    likewise a reply that contains "red" makes the stored color "red". *)
Theorem assistant_words_fill_slots
    (env : Collaborators) (req : Request) (w : World) (prompt : string) :
  fst (handleTurn env req w) = Normal (Continue prompt) ->
  let record := partialRecord (snd (handleTurn env req w)) (CallSid req) in
  (contains (toLowerCase prompt) "rare" -> steakPreference record = Some "rare") /\
  (contains (toLowerCase prompt) "red" -> favoriteColor record = Some "red").
Proof.
  destruct (handleTurn_cases env req w)
    as [[e ->] | (row & ai & Hrow & _ &
                  [[Hp ->] | [(_ & e & _ & ->) | (_ & pref & t & line & _ & _ & ->)]])];
    cbn [fst snd]; try discriminate.
  intros [= <-]. cbv zeta. unfold partialRecord; cbn [db].
  rewrite (storedHistory_turn_db _ _ _ _ Hrow). cbn [CallSessions.collected_data].
  unfold turn_info, fullConversation, next_history. rewrite map_app. cbn [map content].
  destruct (join_last " " (map content (history_of row ++ [mkMessage user (speech_of req)])) ai)
    as [pre ->].
  unfold extractInformation; cbn [steakPreference favoriteColor].
  rewrite toLowerCase_append.
  split; intros [a [b ->]]; apply first_included_head, includes_spec;
    exists (toLowerCase pre +:+ a), b; now rewrite append_assoc.
Qed.

Lemma assistant_words_fill_slots_witness :
  steakPreference
    (partialRecord
       (snd (handleTurn (all_up "Rare, medium rare, medium, medium well or well done?")
                        (req_turn "I would like my steak medium") after_turn1))
       "CA1")
  = Some "rare".
Proof.
  refine (proj1 (assistant_words_fill_slots
            (all_up "Rare, medium rare, medium, medium well or well done?")
            (req_turn "I would like my steak medium") after_turn1
            "Rare, medium rare, medium, medium well or well done?" _) _).
  - vm_compute. reflexivity.
  - exists "", ", medium rare, medium, medium well or well done?". reflexivity.
Defined.

(** ** [updateSession] *)

Lemma update_session_absent
    (callSid : string) (h : list Message) (i : Info) (d : Db) :
  sessions_of callSid d = [] -> update_session callSid h i d = d.
Proof.
  destruct d as [rows seq cust cseq]. unfold sessions_of, update_session.
  cbn [call_sessions call_sessions_seq customers customers_seq].
  intros Hnone. f_equal.
  induction rows as [|x l IH]; cbn [map List.filter] in *; [reflexivity|].
  destruct (String.eqb (CallSessions.call_sid x) callSid); [discriminate|].
  now rewrite IH.
Qed.

(** X20.  [updateSession] writes every row of the call and no other: after
    it, all rows of the call (there can be several, after overlapping
    greetings) hold the given history and record and are as many as before;
    for a call without a row it resolves and changes nothing. *)
Theorem updateSession_writes_all_rows_of_the_call
    (env : Collaborators) (callSid : string) (history : list Message)
    (collectedData : Info) (w : World) :
  sqlite_err env UpdateSession = None ->
  let w' := snd (updateSession env callSid history collectedData w) in
  fst (updateSession env callSid history collectedData w) = Normal tt /\
  Forall (fun r => CallSessions.conversation_state r = Some history /\
                   CallSessions.collected_data r = collectedData)
         (sessions_of callSid (db w')) /\
  map row_key (sessions_of callSid (db w')) = map row_key (sessions_of callSid (db w)) /\
  (forall other, other <> callSid ->
                 sessions_of other (db w') = sessions_of other (db w)) /\
  (sessions_of callSid (db w) = [] -> w' = w).
Proof.
  intros Herr. cbv zeta. unfold updateSession, sqlite. rewrite Herr.
  cbn [fst snd db]. split; [reflexivity|].
  split; [|split; [|split]].
  - unfold sessions_of, update_session; cbn [call_sessions].
    induction (call_sessions (db w)) as [|x l IH]; cbn [map List.filter];
      [constructor|].
    destruct (String.eqb (CallSessions.call_sid x) callSid) eqn:E.
    + cbn [CallSessions.call_sid]. rewrite E. constructor; [now split | exact IH].
    + rewrite E. exact IH.
  - unfold sessions_of, update_session; cbn [call_sessions].
    induction (call_sessions (db w)) as [|x l IH]; cbn [map List.filter];
      [reflexivity|].
    destruct (String.eqb (CallSessions.call_sid x) callSid) eqn:E.
    + cbn [CallSessions.call_sid]. rewrite E. cbn [map]. now rewrite IH.
    + rewrite E. exact IH.
  - intros other Hne. now apply sessions_of_update_other.
  - intros Hnone. now rewrite (update_session_absent _ _ _ _ Hnone), world_eta.
Qed.

Lemma updateSession_writes_all_rows_of_the_call_witness :
  snd (updateSession (all_up "") "CA404" [] empty_info after_turn1) = after_turn1.
Proof.
  refine (proj2 (proj2 (proj2 (proj2
            (updateSession_writes_all_rows_of_the_call (all_up "") "CA404" []
               empty_info after_turn1 eq_refl)))) _).
  vm_compute. reflexivity.
Defined.

(** ** The stored record and the stored history *)

Lemma handleTurn_records_extracted (env : Collaborators) (req : Request) (w : World) :
  records_extracted w -> records_extracted (snd (handleTurn env req w)).
Proof.
  unfold records_extracted. intros Hw.
  destruct (handleTurn_sessions env req w) as [-> | (row & ai & Hrow & ->)];
    [exact Hw|].
  unfold update_session; cbn [call_sessions].
  apply Forall_map. eapply Forall_impl; [exact Hw|]. intros x Hx. cbn beta.
  destruct (String.eqb (CallSessions.call_sid x) (CallSid req)); [|exact Hx].
  reflexivity.
Qed.

Lemma voice_records_extracted (env : Collaborators) (req : Request) (w : World) :
  records_extracted w -> records_extracted (snd (voice env req w)).
Proof.
  unfold records_extracted. intros Hw.
  destruct (voice_sessions env req w) as [-> | [_ ->]]; [exact Hw|].
  apply Forall_app. split; [exact Hw|]. constructor; [|constructor]. reflexivity.
Qed.

Lemma run_webhooks_records_extracted (calls : list Webhook) :
  forall w, records_extracted w -> records_extracted (run_webhooks calls w).
Proof.
  induction calls as [|h calls IH]; intros w Hw; [exact Hw|].
  unfold run_webhooks; cbn [fold_left]. apply IH.
  destruct h as [env req | env req]; cbn [deliver].
  - now apply voice_records_extracted.
  - rewrite gather_world. now apply handleTurn_records_extracted.
Qed.

(** X21.  Whatever webhooks the server has handled since it started with
    an empty database, the stored partial record of a call is exactly what
    [extractInformation] yields on the whole stored history of that call,
    joined with spaces: the record holds nothing of its own, and a turn
    whose UPDATE did not happen has left no trace in it. *)
Theorem stored_record_is_extraction (calls : list Webhook) (callSid : string) :
  let w := run_webhooks calls empty_world in
  partialRecord w callSid =
    extractInformation (fullConversation (storedHistory w callSid)).
Proof.
  cbv zeta.
  assert (Hw : records_extracted (run_webhooks calls empty_world))
    by (apply run_webhooks_records_extracted; constructor).
  unfold partialRecord, storedHistory.
  destruct (select_session callSid (db (run_webhooks calls empty_world)))
    as [r|] eqn:Hr; [|reflexivity].
  apply select_session_in in Hr as [Hin _].
  unfold records_extracted in Hw. rewrite Forall_forall in Hw.
  apply Hw. now apply list_elem_of_In.
Qed.

Lemma info_le_all_present (i j : Info) :
  info_le i j -> all_present i -> all_present j.
Proof. unfold info_le, all_present. tauto. Qed.

(** X22.  A call whose stored record is complete never goes back to
    asking: every later turn of that call either completes again (saving
    the customer and requesting the text message once more) or fails; it
    never continues. *)
Theorem complete_call_never_continues
    (calls : list Webhook) (env : Collaborators) (req : Request) (prompt : string) :
  let w := run_webhooks calls empty_world in
  all_present (partialRecord w (CallSid req)) ->
  fst (handleTurn env req w) <> Normal (Continue prompt).
Proof.
  cbv zeta. intros Hp Hc.
  destruct (run_webhooks_monotone calls empty_world empty_world_consistent)
    as [Hcons _].
  destruct (handleTurn_monotone env req _ Hcons) as [_ Hm].
  destruct (Hm (CallSid req)) as [Hle _].
  pose proof (info_le_all_present _ _ Hle Hp) as Hp'.
  destruct (handleTurn_cases env req (run_webhooks calls empty_world))
    as [[e He] | (row & ai & Hrow & _ &
                  [[Hn He] | [(_ & e & _ & He) | (_ & pref & t & line & _ & _ & He)]])];
    rewrite He in Hc, Hp'; cbn [fst snd] in Hc, Hp'; try discriminate.
  apply Hn. unfold partialRecord in Hp'; cbn [db] in Hp'.
  now rewrite (storedHistory_turn_db _ _ _ _ Hrow) in Hp'.
Qed.

Lemma complete_call_never_continues_witness :
  fst (handleTurn (all_up "Anything else?") (req_turn "hello again")
                  (run_webhooks call_of_sam empty_world))
  <> Normal (Continue "Anything else?").
Proof.
  apply (complete_call_never_continues call_of_sam (all_up "Anything else?")
           (req_turn "hello again") "Anything else?").
  vm_compute. repeat split; eexists; reflexivity.
Defined.
